(** * A shallow embedding of [EvaluationCSVManager] (src/main.py)

    The polars pipeline built in [__post_init__], the [query] method, the
    metric-map join of [load_metric_map], the [unique()] views
    ([feature_mapping], [geometry], [earliest_lead_times], ...), the
    colour-bar range selection and the widget callbacks of
    [SiteSelector.generate], and the linked selectors of explorer/cli.py.

    Modelling conventions:
    - a nullable polars cell is an [option]; [None] is polars' null;
    - datetimes and durations are integers in microseconds (polars' default
      time unit), Float32 columns are rationals [Q] (rounding is not modelled);
    - the two lead-duration text columns are sequences of Unicode scalar
      values ([ustring]), since the regex of [str.extract] matches characters,
      not bytes; the other text columns are compared as whole strings only;
    - errors raised by polars or pandas are the [Err] branch of [Result];
    - [unique()] without [maintain_order] returns the distinct rows in an
      unspecified order: it is a relation, [unique_rel]. *)

From Stdlib Require Import String Ascii List ZArith NArith QArith Qminmax Permutation Bool Lia.
Import ListNotations.
Open Scope Z_scope.

(** ** Results *)

Inductive Error :=
| CastError        (* strict [cast(Int32)] of a string that is not an Int32 *)
| ReindexError     (* pandas: reindexing a Series with duplicate labels *)
| WktError.        (* [GeoSeries.from_wkt] on malformed text *)

Inductive Result (A : Type) :=
| Ok : A -> Result A
| Err : Error -> Result A.
Arguments Ok {A} _.
Arguments Err {A} _.

Definition bind {A B} (r : Result A) (f : A -> Result B) : Result B :=
  match r with Ok a => f a | Err e => Err e end.
Definition rmap {A B} (f : A -> B) (r : Result A) : Result B :=
  match r with Ok a => Ok (f a) | Err e => Err e end.

Notation "x <- r ;; k" := (bind r (fun x => k))
  (at level 61, r at next level, right associativity).

Fixpoint mapM {A B} (f : A -> Result B) (l : list A) : Result (list B) :=
  match l with
  | [] => Ok []
  | x :: l' => y <- f x ;; ys <- mapM f l' ;; Ok (y :: ys)
  end.

(** ** CSV parsing: [null_values] *)

(** The literal strings [scan_csv] reads as null, in every column. *)
Definition null_values : list string :=
  [ "-1000000000-01-01T00:00:00Z";
    "+1000000000-12-31T23:59:59.999999999Z";
    "PT-2562047788015215H-30M-8S";
    "PT2562047788015215H30M7.999999999S" ]%string.

Definition is_null_value (s : string) : bool :=
  existsb (String.eqb s) null_values.

(** A text cell as read: an empty field is already [None]. *)
Definition read_cell (c : option string) : option string :=
  match c with
  | Some s => if is_null_value s then None else Some s
  | None => None
  end.

(** ** Text as Unicode scalar values *)

Definition ustring := list N.

(** An ASCII literal as a sequence of code points. *)
Definition ascii_text (s : string) : ustring :=
  map (fun c => N.of_nat (nat_of_ascii c)) (list_ascii_of_string s).

Definition ustring_eqb (a b : ustring) : bool :=
  if list_eq_dec N.eq_dec a b then true else false.

Definition is_null_text (s : ustring) : bool :=
  existsb (fun v => ustring_eqb s (ascii_text v)) null_values.

(** A duration cell as read, [null_values] applied. *)
Definition read_text_cell (c : option ustring) : option ustring :=
  match c with
  | Some s => if is_null_text s then None else Some s
  | None => None
  end.

(** ** [str.extract("(\d+)")]: the first run of digits *)

(** The regex engine's [\d]: Unicode general category Nd (Unicode 15.0),
    as blocks (first code point, length). *)
Definition nd_blocks : list (N * N) :=
  [ (0x0030, 10); (0x0660, 10); (0x06F0, 10); (0x07C0, 10); (0x0966, 10);
    (0x09E6, 10); (0x0A66, 10); (0x0AE6, 10); (0x0B66, 10); (0x0BE6, 10);
    (0x0C66, 10); (0x0CE6, 10); (0x0D66, 10); (0x0DE6, 10); (0x0E50, 10);
    (0x0ED0, 10); (0x0F20, 10); (0x1040, 10); (0x1090, 10); (0x17E0, 10);
    (0x1810, 10); (0x1946, 10); (0x19D0, 10); (0x1A80, 10); (0x1A90, 10);
    (0x1B50, 10); (0x1BB0, 10); (0x1C40, 10); (0x1C50, 10); (0xA620, 10);
    (0xA8D0, 10); (0xA900, 10); (0xA9D0, 10); (0xA9F0, 10); (0xAA50, 10);
    (0xABF0, 10); (0xFF10, 10); (0x104A0, 10); (0x10D30, 10); (0x11066, 10);
    (0x110F0, 10); (0x11136, 10); (0x111D0, 10); (0x112F0, 10); (0x11450, 10);
    (0x114D0, 10); (0x11650, 10); (0x116C0, 10); (0x11730, 10); (0x118E0, 10);
    (0x11950, 10); (0x11C50, 10); (0x11D50, 10); (0x11DA0, 10); (0x11F50, 10);
    (0x16A60, 10); (0x16AC0, 10); (0x16B50, 10); (0x1D7CE, 50); (0x1E140, 10);
    (0x1E2F0, 10); (0x1E4F0, 10); (0x1E950, 10); (0x1FBF0, 10) ]%N.

Definition is_digit (c : N) : bool :=
  existsb (fun '(lo, len) => ((lo <=? c) && (c <? lo + len))%N) nd_blocks.

(** The digits 0-9, the only ones the Int32 parser accepts. *)
Definition is_ascii_digit (c : N) : bool := ((48 <=? c) && (c <=? 57))%N.

Fixpoint skip_nondigits (s : ustring) : ustring :=
  match s with
  | [] => []
  | c :: s' => if is_digit c then s else skip_nondigits s'
  end.

Fixpoint take_digits (s : ustring) : ustring :=
  match s with
  | [] => []
  | c :: s' => if is_digit c then c :: take_digits s' else []
  end.

(** The first match of the capture group, null when there is none. *)
Definition str_extract_digits (c : option ustring) : option ustring :=
  match c with
  | None => None
  | Some s =>
      match take_digits (skip_nondigits s) with
      | [] => None
      | d => Some d
      end
  end.

Fixpoint digits_value_acc (acc : Z) (s : ustring) : Z :=
  match s with
  | [] => acc
  | c :: s' => digits_value_acc (acc * 10 + (Z.of_N c - 48)) s'
  end.

Definition digits_value (s : ustring) : Z := digits_value_acc 0 s.

Definition int32_max : Z := 2147483647.

(** [cast(pldt.Int32)] (strict) of the extracted text: a text that is not a
    run of ASCII digits, or whose value does not fit, raises. *)
Definition cast_int32 (c : option ustring) : Result (option Z) :=
  match c with
  | None => Ok None
  | Some d =>
      if forallb is_ascii_digit d then
        let v := digits_value d in
        if v <=? int32_max then Ok (Some v) else Err CastError
      else Err CastError
  end.

Definition fill_null (d : Z) (c : option Z) : option Z :=
  match c with None => Some d | Some v => Some v end.

(** [pl.col(<duration text>).str.extract("(\\d+)").cast(Int32).fill_null(0)],
    applied to the cell as read by [scan_csv]. *)
Definition lead_time (raw : option ustring) : Result (option Z) :=
  rmap (fill_null 0) (cast_int32 (str_extract_digits (read_text_cell raw))).

(** ** Rows *)

(** A source row, with the columns of [DTYPE_MAPPING]: text columns as the
    raw CSV text (null when the field is empty), the other columns as polars
    parsed them. *)
Record RawRow := {
  raw_left_feature_name : option string;
  raw_left_feature_wkt : option string;
  raw_left_feature_description : option string;
  raw_right_feature_name : option string;
  raw_latest_issued_time_inclusive : option Z;
  raw_earliest_valid_time_exclusive : option Z;
  raw_latest_valid_time_inclusive : option Z;
  raw_earliest_issued_time_exclusive : option Z;
  raw_earliest_lead_duration_exclusive : option ustring;
  raw_latest_lead_duration_inclusive : option ustring;
  raw_event_threshold_name : option string;
  raw_event_threshold_lower_value : option Q;
  raw_metric_name : option string;
  raw_sample_quantile : option Q;
  raw_statistic : option Q
}.

(** A row of [self._dataframe]: the selected columns plus the three
    columns added by [with_columns]. *)
Record Row := {
  left_feature_name : option string;
  left_feature_wkt : option string;
  left_feature_description : option string;
  right_feature_name : option string;
  latest_issued_time_inclusive : option Z;
  earliest_valid_time_exclusive : option Z;
  latest_valid_time_inclusive : option Z;
  earliest_issued_time_exclusive : option Z;
  earliest_lead_duration_exclusive : option ustring;
  latest_lead_duration_inclusive : option ustring;
  event_threshold_name : option string;
  event_threshold_lower_value : option Q;
  metric_name : option string;
  sample_quantile : option Q;
  statistic : option Q;
  evaluation_period : option Z;
  earliest_lead_time : option Z;
  latest_lead_time : option Z
}.

(** Datetime subtraction, null when either side is null. *)
Definition sub_opt (a b : option Z) : option Z :=
  match a, b with Some x, Some y => Some (x - y) | _, _ => None end.

(** One row through [scan_csv(..., null_values=...).select(...).with_columns(...)]. *)
Definition derive_row (r : RawRow) : Result Row :=
  elt <- lead_time (raw_earliest_lead_duration_exclusive r) ;;
  llt <- lead_time (raw_latest_lead_duration_inclusive r) ;;
  Ok {|
    left_feature_name := read_cell (raw_left_feature_name r);
    left_feature_wkt := read_cell (raw_left_feature_wkt r);
    left_feature_description := read_cell (raw_left_feature_description r);
    right_feature_name := read_cell (raw_right_feature_name r);
    latest_issued_time_inclusive := raw_latest_issued_time_inclusive r;
    earliest_valid_time_exclusive := raw_earliest_valid_time_exclusive r;
    latest_valid_time_inclusive := raw_latest_valid_time_inclusive r;
    earliest_issued_time_exclusive := raw_earliest_issued_time_exclusive r;
    earliest_lead_duration_exclusive := read_text_cell (raw_earliest_lead_duration_exclusive r);
    latest_lead_duration_inclusive := read_text_cell (raw_latest_lead_duration_inclusive r);
    event_threshold_name := read_cell (raw_event_threshold_name r);
    event_threshold_lower_value := raw_event_threshold_lower_value r;
    metric_name := read_cell (raw_metric_name r);
    sample_quantile := raw_sample_quantile r;
    statistic := raw_statistic r;
    evaluation_period :=
      sub_opt (raw_latest_issued_time_inclusive r) (raw_earliest_issued_time_exclusive r);
    earliest_lead_time := elt;
    latest_lead_time := llt
  |}.

(** Projection pushdown: a [collect()] computes only the columns its view
    reads.  A lead-time column the view does not read is not derived: its
    duration text is not looked at, shown here as an absent text. *)
Definition prune_row (reads_earliest reads_latest : bool) (r : RawRow) : RawRow := {|
  raw_left_feature_name := raw_left_feature_name r;
  raw_left_feature_wkt := raw_left_feature_wkt r;
  raw_left_feature_description := raw_left_feature_description r;
  raw_right_feature_name := raw_right_feature_name r;
  raw_latest_issued_time_inclusive := raw_latest_issued_time_inclusive r;
  raw_earliest_valid_time_exclusive := raw_earliest_valid_time_exclusive r;
  raw_latest_valid_time_inclusive := raw_latest_valid_time_inclusive r;
  raw_earliest_issued_time_exclusive := raw_earliest_issued_time_exclusive r;
  raw_earliest_lead_duration_exclusive :=
    if reads_earliest then raw_earliest_lead_duration_exclusive r else None;
  raw_latest_lead_duration_inclusive :=
    if reads_latest then raw_latest_lead_duration_inclusive r else None;
  raw_event_threshold_name := raw_event_threshold_name r;
  raw_event_threshold_lower_value := raw_event_threshold_lower_value r;
  raw_metric_name := raw_metric_name r;
  raw_sample_quantile := raw_sample_quantile r;
  raw_statistic := raw_statistic r |}.

(** [scan_csv(file_list, ...)...collect()] for a view that reads the
    EARLIEST / LATEST LEAD TIME columns or not: the files' rows one after the
    other, each derived; a failing cast in a column the view reads makes the
    [collect()] fail. *)
Definition collect_view (reads_earliest reads_latest : bool) (file_list : list (list RawRow))
  : Result (list Row) :=
  mapM derive_row (map (prune_row reads_earliest reads_latest) (concat file_list)).

(** [self.dataframe.collect()]: every column. *)
Definition dataframe (file_list : list (list RawRow)) : Result (list Row) :=
  collect_view true true file_list.

(** ** [query]: [LazyFrame.filter( *filters)] then an optional [select] *)

(** A polars boolean expression: true, false or null on each row. *)
Definition Pred := Row -> option bool.

Definition holds (filters : list Pred) (r : Row) : bool :=
  forallb (fun p => match p r with Some true => true | _ => false end) filters.

(** [filter] keeps the rows on which every predicate is true (a null or false
    one drops the row), in order; with no predicate it keeps every row. *)
Definition lazy_filter (ds : list Row) (filters : list Pred) : list Row :=
  List.filter (holds filters) ds.

(** The rows a [collect()] of [query( *filters)] gives, from the collected
    rows [ds] of the frame (the filter itself raises nothing). *)
Definition query (ds : list Row) (filters : list Pred) : Result (list Row) :=
  Ok (lazy_filter ds filters).

(** [query( *filters, select=["LEFT FEATURE NAME", "STATISTIC"])] followed by
    [to_pandas().set_index("LEFT FEATURE NAME")]: index and STATISTIC. *)
Definition query_name_statistic (ds : list Row) (filters : list Pred)
  : Result (list (option string * option Q)) :=
  rmap (map (fun r => (left_feature_name r, statistic r))) (query ds filters).

(** [pl.lit(True)]. *)
Definition lit_true : Pred := fun _ => Some true.

(** [pl.col(c) == v] and [pl.col(c).is_null()]. *)
Definition col_eq {A} (eqb : A -> A -> bool) (col : Row -> option A) (v : A) : Pred :=
  fun r => match col r with Some x => Some (eqb x v) | None => None end.
Definition col_is_null {A} (col : Row -> option A) : Pred :=
  fun r => match col r with Some _ => Some false | None => Some true end.

(** ** [unique()]

    [DataFrame.unique()] without [maintain_order=True] returns each distinct
    row once, in an order polars does not specify. *)
Definition unique_rel {A} (xs out : list A) : Prop :=
  NoDup out /\ forall x, In x out <-> In x xs.

(** ** [load_metric_map] filters *)

(** A Python float argument: [np.nan] or a number. *)
Inductive PyFloat := NaN | Num (q : Q).

Definition ostr_eqb (a b : option string) : bool :=
  match a, b with
  | Some x, Some y => String.eqb x y
  | None, None => true
  | _, _ => false
  end.

(** [pl.duration(days=90)] in microseconds. *)
Definition ninety_days : Z := 90 * 86400 * 1000000.

(** The five predicates [load_metric_map] passes to [query], in order. *)
Definition metric_map_filters (metric : string) (lead : Z) (threshold : option string)
    (quantile : PyFloat) (period : option Z) : list Pred :=
  let thold_filter :=
    match threshold with
    | None => col_is_null event_threshold_name
    | Some t => col_eq String.eqb event_threshold_name t
    end in
  let sq_filter :=
    match quantile with
    | NaN => col_is_null sample_quantile
    | Num q => col_eq Qeq_bool sample_quantile q
    end in
  let period := match period with None => ninety_days | Some p => p end in
  [ col_eq Z.eqb earliest_lead_time lead;
    sq_filter;
    thold_filter;
    col_eq Z.eqb evaluation_period period;
    col_eq String.eqb metric_name metric ].

(** ** pandas [df["geometry"] = series]

    The frame is a list of (index label, other columns); the series a list
    of (label, value).  pandas first gives an empty frame the series' index
    (its other columns filled with NaN, [fill]); then it takes the values by
    position when both indexes are equal, and otherwise reindexes the series
    on the frame's index (a missing label gives a missing value), which fails
    when the series' index has duplicate labels. *)
Section Assign.
Context {K A G : Type} (eqb : K -> K -> bool).

Fixpoint list_eqb (xs ys : list K) : bool :=
  match xs, ys with
  | [], [] => true
  | x :: xs', y :: ys' => (eqb x y && list_eqb xs' ys')%bool
  | _, _ => false
  end.

Fixpoint nodupb (xs : list K) : bool :=
  match xs with
  | [] => true
  | x :: xs' => (negb (existsb (eqb x) xs') && nodupb xs')%bool
  end.

Fixpoint lookup (k : K) (s : list (K * option G)) : option G :=
  match s with
  | [] => None
  | (k', v) :: s' => if eqb k k' then v else lookup k s'
  end.

Definition set_geometry (fill : A) (df : list (K * A)) (s : list (K * option G))
  : Result (list (K * A * option G)) :=
  match df with
  | [] => Ok (map (fun '(k, v) => (k, fill, v)) s)
  | _ =>
      if list_eqb (map fst df) (map fst s)
      then Ok (map (fun '((k, a), (_, v)) => (k, a, v)) (combine df s))
      else if nodupb (map fst s)
      then Ok (map (fun '(k, a) => (k, a, lookup k s)) df)
      else Err ReindexError
  end.
End Assign.

(** ** Geometry, feature mapping and the metric map *)

Section Geometry.
(** [shapely]'s WKT reader: [None] when the text is malformed. *)
Context {Geom : Type} (parse_wkt : string -> option Geom).

(** [gpd.GeoSeries.from_wkt(df["LEFT FEATURE WKT"])] on a frame indexed by name. *)
Definition from_wkt (pairs : list (option string * option string))
  : Result (list (option string * option Geom)) :=
  mapM (fun '(k, w) =>
          match w with
          | None => Ok (k, None)
          | Some t => match parse_wkt t with
                      | Some g => Ok (k, Some g)
                      | None => Err WktError
                      end
          end) pairs.

Definition name_wkt (r : Row) : option string * option string :=
  (left_feature_name r, left_feature_wkt r).

(** The [geometry] property: [select(NAME, WKT).unique().collect()], indexed
    by name, parsed. *)
Definition geometry_rel (ds : list Row) (g : Result (list (option string * option Geom)))
  : Prop :=
  exists pairs, unique_rel (map name_wkt ds) pairs /\ g = from_wkt pairs.

(** The row [feature_mapping] keeps: index LEFT FEATURE NAME, columns
    LEFT FEATURE DESCRIPTION and RIGHT FEATURE NAME. *)
Definition feature_tuple (r : Row) : option string * (option string * option string) :=
  (left_feature_name r, (left_feature_description r, right_feature_name r)).

(** The [feature_mapping] property. *)
Definition feature_mapping_rel (ds : list Row)
    (out : Result (list (option string * (option string * option string) * option Geom)))
  : Prop :=
  exists keys g,
    unique_rel (map feature_tuple ds) keys /\ geometry_rel ds g /\
    out = (geo <- g ;; set_geometry ostr_eqb (None, None) keys geo).

(** [load_metric_map(metric_name, earliest_lead_time, threshold,
    sample_quantile, evaluation_period)]: rows (name, STATISTIC, geometry). *)
Definition load_metric_map_rel (ds : list Row) (metric : string) (lead : Z)
    (threshold : option string) (quantile : PyFloat) (period : option Z)
    (out : Result (list (option string * option Q * option Geom))) : Prop :=
  exists g,
    geometry_rel ds g /\
    out = (df <- query_name_statistic ds (metric_map_filters metric lead threshold quantile period) ;;
           geo <- g ;;
           set_geometry ostr_eqb None df geo).
End Geometry.

(** ** Distinct-value views *)

(** [earliest_lead_times]: [select("EARLIEST LEAD TIME").unique()...to_list()]. *)
Definition earliest_lead_times_rel (ds : list Row) (out : list (option Z)) : Prop :=
  unique_rel (map earliest_lead_time ds) out.

(** [metric_names] and [thresholds], likewise. *)
Definition metric_names_rel (ds : list Row) (out : list (option string)) : Prop :=
  unique_rel (map metric_name ds) out.
Definition thresholds_rel (ds : list Row) (out : list (option string)) : Prop :=
  unique_rel (map event_threshold_name ds) out.

(** ** [metric_range] and the colour-bar limits *)

(** polars' [min()] / [max()] of a column: nulls skipped, null when no value. *)
Definition min_step (acc : option Q) (x : option Q) : option Q :=
  match x, acc with
  | None, _ => acc
  | Some v, None => Some v
  | Some v, Some a => Some (if Qle_bool v a then v else a)
  end.
Definition max_step (acc : option Q) (x : option Q) : option Q :=
  match x, acc with
  | None, _ => acc
  | Some v, None => Some v
  | Some v, Some a => Some (if Qle_bool a v then v else a)
  end.

Lemma Qle_bool_false_le (x y : Q) : Qle_bool x y = false -> (y <= x)%Q.
Proof.
  intro H. apply Qlt_le_weak, Qnot_le_lt. intro H'. apply Qle_bool_iff in H'. congruence.
Qed.

Definition col_min (xs : list (option Q)) : option Q := fold_left min_step xs None.
Definition col_max (xs : list (option Q)) : option Q := fold_left max_step xs None.

Definition metric_range (ds : list Row) (m : string) : Result (option Q * option Q) :=
  rmap (fun rows => (col_min (map statistic rows), col_max (map statistic rows)))
       (query ds [col_eq String.eqb metric_name m]).

(** A Python dict as an association list. *)
Definition Dict (V : Type) := list (string * V).

Fixpoint dict_update {V} (d : Dict V) (k : string) (v : V) : Dict V :=
  match d with
  | [] => [(k, v)]
  | (k', v') :: d' => if String.eqb k k' then (k, v) :: d' else (k', v') :: dict_update d' k v
  end.

Fixpoint dict_get {V} (d : Dict V) (k : string) (default : V) : V :=
  match d with
  | [] => default
  | (k', v) :: d' => if String.eqb k k' then v else dict_get d' k default
  end.

Definition METRIC_COLORBAR_LIMITS : Dict (option Q * option Q) :=
  [("BIAS FRACTION"%string, (Some (-1)%Q, Some 1%Q))].

(** [SiteSelector.generate]: the limits are updated with the computed range of
    SAMPLE SIZE, then [(cmin, cmax)] is looked up for the displayed metric. *)
Definition colorbar_limits (ds : list Row) (metric_label : string)
  : Result (option Q * option Q) :=
  ss <- metric_range ds "SAMPLE SIZE" ;;
  Ok (dict_get (dict_update METRIC_COLORBAR_LIMITS "SAMPLE SIZE" ss) metric_label (None, None)).

(** The range query as the specification words it (section 4.6): the
    curated override, else the min and max of the metric's statistics over the
    whole dataset, else [(null, null)]. *)
Definition range_query_spec (ds : list Row) (m : string) : option Q * option Q :=
  match dict_get METRIC_COLORBAR_LIMITS m (None, None) with
  | (Some lo, Some hi) => (Some lo, Some hi)
  | _ =>
      let vals := flat_map (fun r => match metric_name r, statistic r with
                                     | Some n, Some v => if String.eqb n m then [v] else []
                                     | _, _ => []
                                     end) ds in
      match vals with
      | [] => (None, None)
      | v :: vs => (Some (fold_left Qmin vs v), Some (fold_left Qmax vs v))
      end
  end.
(** ** [start_date] and [end_date] *)

(** polars' [min()] / [max()] of a Datetime column. *)
Definition zmin_step (acc : option Z) (x : option Z) : option Z :=
  match x, acc with
  | None, _ => acc
  | Some v, None => Some v
  | Some v, Some a => Some (Z.min v a)
  end.
Definition zmax_step (acc : option Z) (x : option Z) : option Z :=
  match x, acc with
  | None, _ => acc
  | Some v, None => Some v
  | Some v, Some a => Some (Z.max v a)
  end.

(** [select("EARLIEST VALID TIME EXCLUSIVE").min().collect().item()]. *)
Definition start_date (ds : list Row) : option Z :=
  fold_left zmin_step (map earliest_valid_time_exclusive ds) None.
(** [select("LATEST VALID TIME INCLUSIVE").max().collect().item()]. *)
Definition end_date (ds : list Row) : option Z :=
  fold_left zmax_step (map latest_valid_time_inclusive ds) None.

(** ** Widget callbacks *)

(** Python's [list.index]: the position of the first occurrence, [None] when
    it raises [ValueError]. *)
Fixpoint index_of {A} (eqb : A -> A -> bool) (x : A) (l : list A) : option nat :=
  match l with
  | [] => None
  | y :: l' => if eqb x y then Some 0%nat else option_map S (index_of eqb x l')
  end.

(** [SiteSelector.generate.update_lead_time_value(click, direction)]: the
    slider's new value; [None] when [options.index] raises.  Setting the
    value then runs the slider's own watchers ([update_lead_time_scatter],
    which queries the metric map); they are not part of this model. *)
Definition update_lead_time_value (options : list Z) (value : Z) (click : bool)
    (direction : string) : option Z :=
  if negb click then Some value else
  match index_of Z.eqb value options with
  | None => None
  | Some idx =>
      if String.eqb direction "forward" then
        if Nat.eqb idx (length options - 1)%nat then Some value
        else Some (nth (idx + 1)%nat options value)
      else if String.eqb direction "backward" then
        if Nat.eqb idx 0%nat then Some value
        else Some (nth (idx - 1)%nat options value)
      else Some value
  end.

(** The option lists of the two site selectors of [SiteSelector.generate]:
    [features["LEFT FEATURE NAME"].to_list()] and
    [features["RIGHT FEATURE NAME"].to_list()], with
    [features = feature_mapping.reset_index()]. *)
Definition left_options {G} (fm : list (option string * (option string * option string) * option G))
  : list (option string) := map (fun '(k, _, _) => k) fm.
Definition right_options {G} (fm : list (option string * (option string * option string) * option G))
  : list (option string) := map (fun '(_, (_, rn), _) => rn) fm.

(** Python truthiness of a selector value: [None] and [""] are false. *)
Definition truthy (v : option string) : bool :=
  match v with None => false | Some t => negb (String.eqb t "") end.

(** What one of [Dashboard.update_left] / [Dashboard.update_right] in
    explorer/cli.py does: nothing ([return] on a false value); raise
    before anything is set ([options.index] raises [ValueError], the
    subscript [IndexError]); set the other selector and then raise (the
    description is missing or null, and the concatenation raises); or set
    the other selector and the description pane. *)
Inductive Link :=
| Unchanged
| Raised
| SetThenRaised (v : option string)
| SetTo (v : option string) (desc : string).

(** [update_left(right_value)] is [update_linked rights lefts descs], and
    [update_right(left_value)] is [update_linked lefts rights descs], with
    [descs = self.feature_descriptions]. *)
Definition update_linked (from_options to_options : list (option string))
    (descs : list (option string)) (value : option string) : Link :=
  if negb (truthy value) then Unchanged else
  match index_of ostr_eqb value from_options with
  | None => Raised
  | Some idx =>
      match nth_error to_options idx with
      | None => Raised
      | Some v =>
          match nth_error descs idx with
          | Some (Some d) => SetTo v ("LEFT FEATURE DESCRIPTION<br>" ++ d)
          | _ => SetThenRaised v
          end
      end
  end.

(** The [left_value] / [right_value] branches of
    [SiteSelector.update_selection]. *)
Inductive SelectionSource := LeftValue | RightValue.

(** What the branch does: return at once while updates are frozen; raise
    ([options.index] raises [ValueError]; [features.iloc[idx, :]] raises
    [IndexError]; a null geometry has no [.x] and raises [AttributeError]);
    or select the entry at the same position of the other selector and move
    the marker to the geometry's (lon, lat).  Updates are frozen while the
    other selector is set, so its own watcher returns at once. *)
Inductive Selection :=
| Frozen
| SelectionRaised
| Selected (other : option string) (lon_lat : Q * Q).

(** [xy] is [(geometry.x, geometry.y)], [None] when they raise. *)
Definition update_selection_link {G} (xy : G -> option (Q * Q))
    (fm : list (option string * (option string * option string) * option G))
    (freeze_updates : bool) (source : SelectionSource) (event : option string) : Selection :=
  if freeze_updates then Frozen else
  let '(from_options, to_options) :=
    match source with
    | LeftValue => (left_options fm, right_options fm)
    | RightValue => (right_options fm, left_options fm)
    end in
  match index_of ostr_eqb event from_options with
  | None => SelectionRaised
  | Some idx =>
      match nth_error fm idx with
      | None => SelectionRaised
      | Some (_, _, None) => SelectionRaised
      | Some (_, _, Some g) =>
          match xy g with
          | None => SelectionRaised
          | Some c =>
              match nth_error to_options idx with
              | None => SelectionRaised
              | Some t => Selected t c
              end
          end
      end
  end.

(** ** Small inputs *)

Definition empty_raw : RawRow := {|
  raw_left_feature_name := None; raw_left_feature_wkt := None;
  raw_left_feature_description := None; raw_right_feature_name := None;
  raw_latest_issued_time_inclusive := None; raw_earliest_valid_time_exclusive := None;
  raw_latest_valid_time_inclusive := None; raw_earliest_issued_time_exclusive := None;
  raw_earliest_lead_duration_exclusive := None; raw_latest_lead_duration_inclusive := None;
  raw_event_threshold_name := None; raw_event_threshold_lower_value := None;
  raw_metric_name := None; raw_sample_quantile := None; raw_statistic := None |}.

(** A source row whose lead durations are the two "unbounded" sentinels. *)
Definition unbounded_raw : RawRow := {|
  raw_left_feature_name := Some "07083710"%string;
  raw_left_feature_wkt := Some "POINT (-97.1 36.2)"%string;
  raw_left_feature_description := Some "Site"%string;
  raw_right_feature_name := Some "1"%string;
  raw_latest_issued_time_inclusive := None; raw_earliest_valid_time_exclusive := None;
  raw_latest_valid_time_inclusive := None; raw_earliest_issued_time_exclusive := None;
  raw_earliest_lead_duration_exclusive := Some (ascii_text "PT-2562047788015215H-30M-8S");
  raw_latest_lead_duration_inclusive := Some (ascii_text "PT2562047788015215H30M7.999999999S");
  raw_event_threshold_name := None; raw_event_threshold_lower_value := None;
  raw_metric_name := Some "BIAS FRACTION"%string; raw_sample_quantile := None;
  raw_statistic := Some (1#2)%Q |}.

(** A duration cell that the spec calls unbounded: absent, or a sentinel. *)
Definition absent_or_sentinel (c : option ustring) : Prop :=
  match c with None => True | Some s => is_null_text s = true end.

(** Character classes, for stating "first run of digits" independently of
    [skip_nondigits] and [take_digits]. *)
Definition no_digits (s : ustring) : bool := forallb (fun c => negb (is_digit c)) s.


(** A derived row of the 90-day evaluation period, unconditional (no
    threshold) and central (no quantile). *)
Definition mk_row (name right wkt metric : string) (lead : Z) (stat : Q) : Row := {|
  left_feature_name := Some name; left_feature_wkt := Some wkt;
  left_feature_description := Some "Site"%string; right_feature_name := Some right;
  latest_issued_time_inclusive := Some ninety_days; earliest_valid_time_exclusive := None;
  latest_valid_time_inclusive := None; earliest_issued_time_exclusive := Some 0;
  earliest_lead_duration_exclusive := None; latest_lead_duration_inclusive := None;
  event_threshold_name := None; event_threshold_lower_value := None;
  metric_name := Some metric; sample_quantile := None; statistic := Some stat;
  evaluation_period := Some ninety_days; earliest_lead_time := Some lead;
  latest_lead_time := Some lead |}.

(** WKT read as its own text: a stand-in for [shapely] in concrete runs. *)
Definition wkt_as_text (s : string) : option string := Some s.

Definition row_A : Row := mk_row "A" "1" "POINT (1 1)" "BIAS FRACTION" 0 (1#2).
Definition row_B : Row := mk_row "B" "2" "POINT (2 2)" "BIAS FRACTION" 0 (3#10).
Definition row_A24 : Row := mk_row "A" "1" "POINT (1 1)" "BIAS FRACTION" 24 (1#4).
(** Feature A paired with a second right feature. *)
Definition row_A_other_right : Row := mk_row "A" "3" "POINT (1 1)" "BIAS FRACTION" 0 (1#5).

(** Feature A at lead 24 h, with a second, different WKT. *)
Definition row_A_moved : Row := mk_row "A" "1" "POINT (1 2)" "BIAS FRACTION" 24 (1#4).


(** [(geometry.x, geometry.y)] of the two points used with [wkt_as_text]. *)
Definition point_xy (g : string) : option (Q * Q) :=
  if String.eqb g "POINT (1 1)" then Some (1, 1)%Q
  else if String.eqb g "POINT (2 2)" then Some (2, 2)%Q
  else None.

(** The (index, columns) part of an entry of a frame with a geometry column. *)
Definition entry_key {K A G} (e : K * A * option G) : K * A :=
  let '(k, a, _) := e in (k, a).

(** A non-null STATISTIC of a row of metric [m], anywhere in the dataset. *)
Definition statistic_of (ds : list Row) (m : string) (v : Q) : Prop :=
  exists r, In r ds /\ metric_name r = Some m /\ statistic r = Some v.

(** * Theorems *)

Example lead_time_PT6H : lead_time (Some (ascii_text "PT6H")) = Ok (Some 6).
Proof. reflexivity. Qed.
Example lead_time_PT6H30M : lead_time (Some (ascii_text "PT6H30M")) = Ok (Some 6).
Proof. reflexivity. Qed.
Example lead_time_PT90M : lead_time (Some (ascii_text "PT90M")) = Ok (Some 90).
Proof. reflexivity. Qed.
Example lead_time_sentinel :
  lead_time (Some (ascii_text "PT2562047788015215H30M7.999999999S")) = Ok (Some 0).
Proof. reflexivity. Qed.

(** ** The lead-time columns *)

Lemma lead_time_never_null (c : option ustring) (v : option Z) :
  lead_time c = Ok v -> v <> None.
Proof.
  unfold lead_time, rmap.
  destruct (cast_int32 (str_extract_digits (read_text_cell c))) as [[x|]|e];
    intro H; inversion H; discriminate.
Qed.

Lemma lead_time_unbounded (c : option ustring) :
  absent_or_sentinel c -> lead_time c = Ok (Some 0).
Proof.
  destruct c as [s|]; simpl; [intro H | reflexivity].
  unfold lead_time, read_text_cell. rewrite H. reflexivity.
Qed.

Lemma derive_row_leads (r : RawRow) (d : Row) :
  derive_row r = Ok d ->
  lead_time (raw_earliest_lead_duration_exclusive r) = Ok (earliest_lead_time d) /\
  lead_time (raw_latest_lead_duration_inclusive r) = Ok (latest_lead_time d).
Proof.
  unfold derive_row, bind.
  destruct (lead_time (raw_earliest_lead_duration_exclusive r)) as [e|] eqn:He;
    [|discriminate].
  destruct (lead_time (raw_latest_lead_duration_inclusive r)) as [l|] eqn:Hl;
    [|discriminate].
  intro H. inversion H. subst. simpl. auto.
Qed.

(** C1 (as the code has it, corrected): the derived lead-time columns are
    never null; an absent or sentinel duration text gives the finite value
    0 ([fill_null(0)]). *)
Theorem derived_lead_times_filled (r : RawRow) (d : Row) :
  derive_row r = Ok d ->
  earliest_lead_time d <> None /\ latest_lead_time d <> None /\
  (absent_or_sentinel (raw_earliest_lead_duration_exclusive r) -> earliest_lead_time d = Some 0) /\
  (absent_or_sentinel (raw_latest_lead_duration_inclusive r) -> latest_lead_time d = Some 0).
Proof.
  intro H. destruct (derive_row_leads r d H) as [He Hl].
  split; [exact (lead_time_never_null _ _ He)|].
  split; [exact (lead_time_never_null _ _ Hl)|].
  split; intro Hs.
  - rewrite (lead_time_unbounded _ Hs) in He. congruence.
  - rewrite (lead_time_unbounded _ Hs) in Hl. congruence.
Qed.

Lemma derived_lead_times_filled_witness :
  exists d, derive_row unbounded_raw = Ok d /\ earliest_lead_time d = Some 0 /\ latest_lead_time d = Some 0.
Proof.
  eexists. split; [reflexivity|].
  pose proof (derived_lead_times_filled unbounded_raw _ eq_refl) as (_ & _ & H1 & H2).
  split; [apply H1 | apply H2]; reflexivity.
Defined.

(** C1 as stated fails: a row whose EARLIEST LEAD DURATION EXCLUSIVE is the
    sentinel [PT-2562047788015215H-30M-8S] gets EARLIEST LEAD TIME 0, not null. *)
Lemma lead_null_iff_unbounded_fails :
  ~ (forall r d, derive_row r = Ok d ->
       (earliest_lead_time d = None <-> absent_or_sentinel (raw_earliest_lead_duration_exclusive r))).
Proof.
  intro H. specialize (H unbounded_raw _ eq_refl). simpl in H.
  destruct H as [_ H]. specialize (H eq_refl). discriminate.
Qed.








(** ** [query] and the metric-map predicates *)

Lemma query_filter (ds : list Row) (filters : list Pred) :
  query ds filters = Ok (List.filter (holds filters) ds).
Proof. reflexivity. Qed.

Lemma pred_true_eq {A} (eqb : A -> A -> bool) (col : Row -> option A) (v : A) (r : Row) :
  (forall x y, eqb x y = true <-> x = y) ->
  (match col_eq eqb col v r with Some true => true | _ => false end) = true <->
  col r = Some v.
Proof.
  intro Heqb. unfold col_eq. destruct (col r) as [x|]; [|split; discriminate].
  destruct (eqb x v) eqn:E.
  - apply Heqb in E. subst. tauto.
  - split; [discriminate|]. intro H; inversion H; subst.
    assert (eqb v v = true) by (apply Heqb; reflexivity). congruence.
Qed.

Lemma pred_true_null {A} (col : Row -> option A) (r : Row) :
  (match col_is_null col r with Some true => true | _ => false end) = true <->
  col r = None.
Proof. unfold col_is_null. destruct (col r); split; congruence. Qed.

(** The conjunction [load_metric_map] builds, with every argument. *)
Lemma holds_metric_map_filters (m : string) (lead : Z) (thr : option string)
    (sq : PyFloat) (per : option Z) (r : Row) :
  holds (metric_map_filters m lead thr sq per) r = true <->
  earliest_lead_time r = Some lead /\
  (match sq with
   | NaN => sample_quantile r = None
   | Num q => exists x, sample_quantile r = Some x /\ Qeq_bool x q = true
   end) /\
  (match thr with
   | None => event_threshold_name r = None
   | Some t => event_threshold_name r = Some t
   end) /\
  evaluation_period r = Some (match per with None => ninety_days | Some p => p end) /\
  metric_name r = Some m.
Proof.
  unfold holds, metric_map_filters. simpl forallb.
  rewrite !andb_true_iff, (pred_true_eq Z.eqb earliest_lead_time lead r Z.eqb_eq).
  rewrite (pred_true_eq Z.eqb evaluation_period _ r Z.eqb_eq).
  rewrite (pred_true_eq String.eqb metric_name m r String.eqb_eq).
  assert (Hsq : (match (match sq with NaN => col_is_null sample_quantile
                                   | Num q => col_eq Qeq_bool sample_quantile q end) r
                 with Some true => true | _ => false end) = true <->
                (match sq with
                 | NaN => sample_quantile r = None
                 | Num q => exists x, sample_quantile r = Some x /\ Qeq_bool x q = true
                 end)).
  { destruct sq as [|q]; [apply pred_true_null|].
    unfold col_eq. destruct (sample_quantile r) as [x|].
    - destruct (Qeq_bool x q) eqn:E; split; intro H; try discriminate.
      + exists x; auto.
      + reflexivity.
      + destruct H as [y [Hy Hq]]. inversion Hy; subst. congruence.
    - split; [discriminate|]. intros [y [Hy _]]; discriminate. }
  assert (Hth : (match (match thr with None => col_is_null event_threshold_name
                                    | Some t => col_eq String.eqb event_threshold_name t end) r
                 with Some true => true | _ => false end) = true <->
                (match thr with
                 | None => event_threshold_name r = None
                 | Some t => event_threshold_name r = Some t
                 end)).
  { destruct thr as [t|]; [apply (pred_true_eq _ _ _ _ String.eqb_eq) | apply pred_true_null]. }
  rewrite Hsq, Hth. tauto.
Qed.

(** C8: [query] with no predicate keeps every row: the collected rows are
    those of the unfiltered frame, unchanged and in order; so does
    [pl.lit(True)]; in general it keeps, in order, the rows on which every
    predicate is true. *)
Theorem query_identity_filter (ds : list Row) :
  query ds [] = Ok ds /\
  query ds [lit_true] = Ok ds /\
  (forall filters, query ds filters = Ok (List.filter (holds filters) ds)).
Proof.
  split; [|split].
  - unfold query, lazy_filter. f_equal. induction ds as [|r ds IH]; [reflexivity|].
    simpl. rewrite IH. reflexivity.
  - unfold query, lazy_filter. f_equal. induction ds as [|r ds IH]; [reflexivity|].
    simpl. rewrite IH. reflexivity.
  - apply query_filter.
Qed.

(** ** Materializing [unique()] views *)


Lemma unique_rel_singleton {A} (x : A) (o : list A) :
  unique_rel [x] o -> o = [x].
Proof.
  intros [N I].
  assert (Hall : forall y, In y o -> y = x) by (intros y Hy; apply I in Hy; simpl in Hy; intuition).
  destruct o as [|y o].
  - exfalso. apply (proj2 (I x)). simpl; auto.
  - rewrite (Hall y) by (simpl; auto).
    destruct o as [|z o]; [reflexivity|].
    inversion N as [|? ? Hn _]; subst. exfalso. apply Hn.
    rewrite (Hall y), (Hall z) by (simpl; auto). simpl; auto.
Qed.

(** C3 (code bug): [earliest_lead_times] is [unique()] without a sort: over
    rows with earliest lead times 24 and 0, polars may return [24; 0], whose
    index 0 is not the smallest bucket. *)
Theorem earliest_lead_times_unsorted :
  earliest_lead_times_rel [row_A24; row_A] [Some 24; Some 0] /\ ~ (24 <= 0).
Proof.
  split; [|lia]. split.
  - repeat constructor; simpl; intuition discriminate.
  - intro x. simpl. tauto.
Qed.

(** ** The metric map *)

(** C7 (code bug): a query whose predicate matches no row (metric
    MEAN ERROR absent from a one-row dataset) returns no error but one row
    per feature of the dataset, with a null STATISTIC: pandas gives the empty
    frame the geometry's index when the geometry column is assigned. *)
Theorem metric_map_no_match_not_empty :
  exists out,
    load_metric_map_rel wkt_as_text [row_A] "MEAN ERROR" 0 None NaN None out /\
    forall out', load_metric_map_rel wkt_as_text [row_A] "MEAN ERROR" 0 None NaN None out' ->
      out' = Ok [(Some "A"%string, None, Some "POINT (1 1)"%string)].
Proof.
  eexists. split.
  - exists (from_wkt wkt_as_text [name_wkt row_A]). split; [|reflexivity].
    exists [name_wkt row_A]. split; [|reflexivity].
    split; [repeat constructor; simpl; tauto | intro; reflexivity].
  - intros out' [g [[pairs [U ->]] ->]].
    apply unique_rel_singleton in U. subst pairs. reflexivity.
Qed.

Lemma ostr_eqb_eq (a b : option string) : ostr_eqb a b = true <-> a = b.
Proof.
  destruct a as [x|], b as [y|]; simpl; try (split; congruence).
  rewrite String.eqb_eq. split; congruence.
Qed.

Lemma list_eqb_eq (xs ys : list (option string)) :
  list_eqb ostr_eqb xs ys = true -> xs = ys.
Proof.
  revert ys. induction xs as [|x xs IH]; intros [|y ys]; simpl; try discriminate; auto.
  intro H. apply andb_prop in H as [H1 H2]. apply ostr_eqb_eq in H1. f_equal; auto.
Qed.

(** When both indexes are equal and unique, taking the values by position
    is the same as looking each label up. *)
Lemma positional_is_lookup {A G} (df : list (option string * A)) (s : list (option string * option G)) :
  map fst df = map fst s -> nodupb ostr_eqb (map fst s) = true ->
  map (fun '((k, a), (_, v)) => (k, a, v)) (combine df s) =
  map (fun '(k, a) => (k, a, lookup ostr_eqb k s)) df.
Proof.
  revert s. induction df as [|[k a] df IH]; intros [|[k' v] s]; simpl; try discriminate; auto.
  intros Hk Hn. injection Hk as -> Hk. apply andb_prop in Hn as [Hn1 Hn2].
  assert (E : ostr_eqb k' k' = true) by (apply ostr_eqb_eq; reflexivity). rewrite E.
  f_equal. rewrite (IH s Hk Hn2).
  apply map_ext_in. intros [kj aj] Hin. simpl.
  destruct (ostr_eqb kj k') eqn:Ek; [|reflexivity]. exfalso.
  apply ostr_eqb_eq in Ek; subst kj.
  assert (Hin' : In k' (map fst s)) by (rewrite <- Hk; apply (in_map fst) in Hin; exact Hin).
  apply negb_true_iff in Hn1.
  assert (existsb (ostr_eqb k') (map fst s) = true)
    by (apply existsb_exists; exists k'; split; [exact Hin' | exact E]).
  congruence.
Qed.

(** pandas' assignment on a non-empty frame, with a unique series index: a
    left join on the label, a missing label giving a missing geometry. *)
Lemma set_geometry_left_join {A G} (fill : A) (df : list (option string * A))
    (s : list (option string * option G)) :
  df <> [] -> nodupb ostr_eqb (map fst s) = true ->
  set_geometry ostr_eqb fill df s = Ok (map (fun '(k, a) => (k, a, lookup ostr_eqb k s)) df).
Proof.
  intros Hne Hn. unfold set_geometry.
  destruct df as [|x df']; [congruence|].
  destruct (list_eqb ostr_eqb (map fst (x :: df')) (map fst s)) eqn:E.
  - apply list_eqb_eq in E. f_equal. apply positional_is_lookup; assumption.
  - rewrite Hn. reflexivity.
Qed.

Lemma from_wkt_keys {Geom} (parse_wkt : string -> option Geom) pairs geo :
  from_wkt parse_wkt pairs = Ok geo -> map fst geo = map fst pairs.
Proof.
  unfold from_wkt. revert geo. induction pairs as [|[k w] pairs IH]; simpl; intros geo H.
  - inversion H; reflexivity.
  - destruct w as [t|]; [destruct (parse_wkt t)|]; simpl in H; try discriminate;
    (destruct (mapM _ pairs) as [l|] eqn:Hm; simpl in H; [|discriminate]);
    inversion H; subst; simpl; f_equal; apply IH; reflexivity.
Qed.

(** C2: a feature name of the filtered statistic rows always has an entry in
    the geometry derived from the same dataset, so a query whose statistic
    rows hold a name without a geometry entry never happens, and the claim's
    implication holds: such a call could only end in an error.  The code has
    no join-integrity check of its own: on a non-empty frame with a unique
    geometry index the assignment is a left join on the name. *)
Theorem metric_map_join_integrity {Geom} (parse_wkt : string -> option Geom)
    (ds : list Row) (m : string) (lead : Z) (thr : option string) (sq : PyFloat)
    (per : option Z) (rows : list (option string * option Q)) :
  query_name_statistic ds (metric_map_filters m lead thr sq per) = Ok rows ->
  (forall geo, geometry_rel parse_wkt ds (Ok geo) ->
     (forall k a, In (k, a) rows -> In k (map fst geo)) /\
     (rows <> [] -> nodupb ostr_eqb (map fst geo) = true ->
      set_geometry ostr_eqb None rows geo =
        Ok (map (fun '(k, a) => (k, a, lookup ostr_eqb k geo)) rows))) /\
  (forall k a geo out, In (k, a) rows -> geometry_rel parse_wkt ds (Ok geo) ->
     ~ In k (map fst geo) ->
     load_metric_map_rel parse_wkt ds m lead thr sq per out -> exists e, out = Err e).
Proof.
  intro Hq.
  assert (Hkeys : forall geo, geometry_rel parse_wkt ds (Ok geo) ->
            forall k a, In (k, a) rows -> In k (map fst geo)).
  { intros geo [pairs [[_ Hp] Hg]] k a Hin.
    unfold query_name_statistic, query, lazy_filter, rmap in Hq.
    injection Hq as <-. apply in_map_iff in Hin as [r [Hr Hin]].
    injection Hr as Hk _. subst k. apply filter_In in Hin as [Hin _].
    rewrite (from_wkt_keys parse_wkt pairs geo (eq_sym Hg)).
    apply (in_map fst pairs (name_wkt r)). apply Hp. apply in_map. exact Hin. }
  split.
  - intros geo Hgeo. split; [exact (Hkeys geo Hgeo)|]. apply set_geometry_left_join.
  - intros k a geo out Hin Hgeo Hnot _. exfalso. exact (Hnot (Hkeys geo Hgeo k a Hin)).
Qed.

Lemma metric_map_join_integrity_witness :
  query_name_statistic [row_A] (metric_map_filters "BIAS FRACTION" 0 None NaN None) =
    Ok [(Some "A"%string, Some (1#2)%Q)] /\
  In (Some "A"%string) (map fst [(Some "A"%string, Some "POINT (1 1)"%string)]) /\
  set_geometry ostr_eqb None [(Some "A"%string, Some (1#2)%Q)]
      [(Some "A"%string, Some "POINT (1 1)"%string)] =
    Ok [(Some "A"%string, Some (1#2)%Q, Some "POINT (1 1)"%string)].
Proof.
  assert (Hq : query_name_statistic [row_A] (metric_map_filters "BIAS FRACTION" 0 None NaN None) =
                 Ok [(Some "A"%string, Some (1#2)%Q)]) by reflexivity.
  assert (Hg : geometry_rel wkt_as_text [row_A] (Ok [(Some "A"%string, Some "POINT (1 1)"%string)])).
  { exists [name_wkt row_A]. split; [|reflexivity].
    split; [repeat constructor; simpl; tauto | intro; reflexivity]. }
  destruct (metric_map_join_integrity wkt_as_text [row_A] "BIAS FRACTION" 0 None NaN None
              [(Some "A"%string, Some (1#2)%Q)] Hq) as [H1 _].
  destruct (H1 _ Hg) as [Hk Hj].
  split; [exact Hq|]. split.
  - apply (Hk _ (Some (1#2)%Q)). simpl; auto.
  - rewrite Hj; [reflexivity | discriminate | reflexivity].
Defined.

(** ** The feature mapping *)

Lemma list_eqb_length {K} (eqb : K -> K -> bool) (xs ys : list K) :
  list_eqb eqb xs ys = true -> length xs = length ys.
Proof.
  revert ys. induction xs as [|x xs IH]; intros [|y ys]; simpl; try discriminate; auto.
  intro H. apply andb_prop in H as [_ H]. f_equal. auto.
Qed.

Lemma entry_key_positional {K A G} (df : list (K * A)) (s : list (K * option G)) :
  length df = length s ->
  map entry_key (map (fun '((k, a), (_, v)) => (k, a, v)) (combine df s)) = df.
Proof.
  revert s. induction df as [|[k a] df IH]; intros [|[k' v] s]; simpl; try discriminate; auto.
  intro H. f_equal. apply IH. congruence.
Qed.

Lemma entry_key_lookup {K A G} (f : K -> option G) (df : list (K * A)) :
  map entry_key (map (fun '(k, a) => (k, a, f k)) df) = df.
Proof. induction df as [|[k a] df IH]; simpl; congruence. Qed.

(** On a non-empty frame the assignment keeps the frame's rows and order. *)
Lemma set_geometry_keeps_frame {K A G} (eqb : K -> K -> bool) (fill : A)
    (df : list (K * A)) (s : list (K * option G)) out :
  df <> [] -> set_geometry eqb fill df s = Ok out -> map entry_key out = df.
Proof.
  intros Hne. unfold set_geometry. destruct df as [|x df']; [congruence|].
  destruct (list_eqb eqb (map fst (x :: df')) (map fst s)) eqn:E.
  - intro H. injection H as <-. apply list_eqb_length in E. rewrite !length_map in E.
    exact (entry_key_positional (x :: df') s E).
  - destruct (nodupb eqb (map fst s)); [|discriminate]. intro H. injection H as <-.
    exact (entry_key_lookup (fun k => lookup eqb k s) (x :: df')).
Qed.

Lemma unique_rel_nil {A} (o : list A) : unique_rel [] o -> o = [].
Proof. intros [_ I]. destruct o as [|x o]; [reflexivity|]. exfalso. apply (I x). simpl; auto. Qed.

(** C5: each argument of the metric-map query selects on its own, whatever
    the other arguments are: [threshold=None] keeps exactly the rows with a
    null EVENT THRESHOLD NAME (a name keeps that name), [sample_quantile=np.nan]
    exactly the rows with a null SAMPLE QUANTILE (a number keeps the equal
    quantile), no [evaluation_period] the 90-day EVALUATION PERIOD; the
    predicates on metric and earliest lead time are conjoined with them.
    When the selection is non-empty, a successful [load_metric_map] returns
    exactly the selected (LEFT FEATURE NAME, STATISTIC) rows, in order. *)
Theorem metric_map_default_selection (ds : list Row) (m : string) (lead : Z)
    (thr : option string) (sq : PyFloat) (per : option Z) :
  exists rows,
    query ds (metric_map_filters m lead thr sq per) = Ok rows /\
    query_name_statistic ds (metric_map_filters m lead thr sq per) =
      Ok (map (fun r => (left_feature_name r, statistic r)) rows) /\
    (forall r, In r rows <->
      In r ds /\ earliest_lead_time r = Some lead /\
      (thr = None -> event_threshold_name r = None) /\
      (forall t, thr = Some t -> event_threshold_name r = Some t) /\
      (sq = NaN -> sample_quantile r = None) /\
      (forall q, sq = Num q -> exists x, sample_quantile r = Some x /\ Qeq_bool x q = true) /\
      (per = None -> evaluation_period r = Some ninety_days) /\
      (forall p, per = Some p -> evaluation_period r = Some p) /\
      metric_name r = Some m) /\
    (forall (Geom : Type) (parse_wkt : string -> option Geom) res,
       @load_metric_map_rel Geom parse_wkt ds m lead thr sq per (Ok res) -> rows <> [] ->
       map entry_key res = map (fun r => (left_feature_name r, statistic r)) rows).
Proof.
  exists (List.filter (holds (metric_map_filters m lead thr sq per)) ds).
  split; [reflexivity|]. split; [reflexivity|]. split.
  - intro r. rewrite filter_In, holds_metric_map_filters.
    destruct thr as [t|], sq as [|q], per as [p|]; split.
    all: try (intros [Hin (Hl & Hs & Ht & Hp & Hm)];
              repeat split; auto; try discriminate;
              intros ? E; injection E as <-; auto; fail).
    all: intros (Hin & Hl & Hn1 & Hs1 & Hq1 & Hq2 & Hp1 & Hp2 & Hm); repeat split; auto.
    all: first [ apply Hn1; reflexivity | apply Hs1; reflexivity
               | apply Hq1; reflexivity | apply Hq2; reflexivity
               | apply Hp1; reflexivity | apply Hp2; reflexivity ].
  - intros Geom parse_wkt res [g [_ Hout]] Hne. simpl in Hout.
    destruct g as [geo|e]; simpl in Hout; [|discriminate].
    apply (set_geometry_keeps_frame ostr_eqb None _ geo); [|symmetry; exact Hout].
    intro E. apply map_eq_nil in E. contradiction.
Qed.

(** C6 (corrected): the feature mapping holds each distinct (LEFT FEATURE
    NAME, LEFT FEATURE DESCRIPTION, RIGHT FEATURE NAME) tuple of the dataset
    exactly once (identical tuples from several files collapse to one); the
    LEFT FEATURE NAME is unique when each name occurs with a single
    description and right feature name. *)
Theorem feature_mapping_distinct_tuples {Geom} (parse_wkt : string -> option Geom)
    (ds : list Row) out :
  feature_mapping_rel parse_wkt ds (Ok out) ->
  NoDup (map entry_key out) /\
  (forall t, In t (map entry_key out) <-> In t (map feature_tuple ds)) /\
  ((forall r1 r2, In r1 ds -> In r2 ds ->
      left_feature_name r1 = left_feature_name r2 -> feature_tuple r1 = feature_tuple r2) ->
   NoDup (map fst (map entry_key out))).
Proof.
  intros [keys [g [[N I] [[pairs [[_ Ip] Hg]] Hout]]]].
  assert (Hk : map entry_key out = keys).
  { destruct keys as [|t keys'].
    - assert (ds = []) as ->.
      { destruct ds as [|r ds]; [reflexivity|]. exfalso. apply (I (feature_tuple r)). simpl; auto. }
      assert (pairs = []) as ->.
      { destruct pairs as [|p pairs]; [reflexivity|]. exfalso. apply (Ip p). simpl; auto. }
      subst g. simpl in Hout. injection Hout as ->. reflexivity.
    - destruct g as [geo|e]; [|discriminate].
      apply (set_geometry_keeps_frame ostr_eqb (None, None) (t :: keys') geo);
        [discriminate | symmetry; exact Hout]. }
  rewrite Hk. split; [exact N|]. split; [exact I|].
  intro FD. apply NoDup_map_NoDup_ForallPairs; [|exact N].
  intros x y Hx Hy Hxy.
  apply I, in_map_iff in Hx as [r1 [<- H1]]. apply I, in_map_iff in Hy as [r2 [<- H2]].
  apply FD; auto.
Qed.

(** Scenario E: feature A in two files, B in the second. *)
Lemma feature_mapping_distinct_tuples_witness :
  NoDup (map fst (map entry_key
    [(Some "A"%string, (Some "Site"%string, Some "1"%string), Some "POINT (1 1)"%string);
     (Some "B"%string, (Some "Site"%string, Some "2"%string), Some "POINT (2 2)"%string)])).
Proof.
  apply (feature_mapping_distinct_tuples wkt_as_text (concat [[row_A]; [row_A; row_B]])).
  - exists (map feature_tuple [row_A; row_B]), (from_wkt wkt_as_text (map name_wkt [row_A; row_B])).
    split; [|split].
    + split; [repeat constructor; simpl; intuition discriminate | simpl; tauto].
    + eexists. split; [|reflexivity].
      split; [repeat constructor; simpl; intuition discriminate | simpl; tauto].
    + reflexivity.
  - simpl. intros r1 r2 H1 H2.
    destruct H1 as [<-|[<-|[<-|[]]]]; destruct H2 as [<-|[<-|[<-|[]]]]; simpl; congruence.
Defined.

(** C6 as stated fails: feature A paired with two right features gives two
    entries named A. *)
Lemma feature_mapping_duplicate_name :
  feature_mapping_rel wkt_as_text [row_A; row_A_other_right]
    (Ok [(Some "A"%string, (Some "Site"%string, Some "1"%string), Some "POINT (1 1)"%string);
         (Some "A"%string, (Some "Site"%string, Some "3"%string), Some "POINT (1 1)"%string)]) /\
  ~ NoDup (map fst (map entry_key
    [(Some "A"%string, (Some "Site"%string, Some "1"%string), Some "POINT (1 1)"%string);
     (Some "A"%string, (Some "Site"%string, Some "3"%string), Some "POINT (1 1)"%string)])).
Proof.
  split.
  - exists (map feature_tuple [row_A; row_A_other_right]), (from_wkt wkt_as_text [name_wkt row_A]).
    split; [|split].
    + split; [repeat constructor; simpl; intuition discriminate | simpl; tauto].
    + eexists. split; [|reflexivity].
      split; [repeat constructor; simpl; tauto | simpl; intuition].
    + reflexivity.
  - simpl. intro N. inversion N as [|? ? Hn _]. apply Hn. simpl; auto.
Qed.

(** ** [metric_range] and the colour-bar limits *)

Lemma min_step_none (acc x : option Q) : min_step acc x = None <-> acc = None /\ x = None.
Proof.
  destruct x as [y|], acc as [a|]; simpl; try (split; [discriminate | intros [H1 H2]; discriminate]);
    intuition discriminate.
Qed.
Lemma max_step_none (acc x : option Q) : max_step acc x = None <-> acc = None /\ x = None.
Proof.
  destruct x as [y|], acc as [a|]; simpl; try (split; [discriminate | intros [H1 H2]; discriminate]);
    intuition discriminate.
Qed.

Lemma fold_step_none (step : option Q -> option Q -> option Q)
    (Hstep : forall acc x, step acc x = None <-> acc = None /\ x = None)
    (xs : list (option Q)) : forall acc,
  fold_left step xs acc = None <-> acc = None /\ forall v, ~ In (Some v) xs.
Proof.
  induction xs as [|x xs IH]; intro acc; simpl.
  - split; [intro H; split; auto | tauto].
  - rewrite IH, Hstep. split.
    + intros [[Ha Hx] Hv]. split; [exact Ha|]. intros v [Hv'|Hv']; [congruence | eapply Hv; eauto].
    + intros [Ha Hv]. split; [split; [exact Ha|] | intros v Hin; apply (Hv v); auto].
      destruct x as [y|]; [exfalso; apply (Hv y); auto | reflexivity].
Qed.

Lemma fold_min_some (xs : list (option Q)) : forall acc v,
  fold_left min_step xs acc = Some v ->
  (acc = Some v \/ In (Some v) xs) /\
  (forall a, acc = Some a -> (v <= a)%Q) /\ (forall w, In (Some w) xs -> (v <= w)%Q).
Proof.
  induction xs as [|x xs IH]; intros acc v Hv; simpl in *.
  - subst. split; [auto|]. split; [intros a Ha; injection Ha as ->; apply Qle_refl | tauto].
  - destruct (IH _ _ Hv) as [Hin [Hacc Hall]].
    destruct x as [y|]; [destruct acc as [a|]|]; simpl in *.
    + destruct (Qle_bool y a) eqn:E.
      * apply Qle_bool_iff in E. specialize (Hacc y eq_refl).
        split; [destruct Hin as [Hin|Hin]; [injection Hin as ->; auto | auto]|]. split.
        -- intros a' Ha'. injection Ha' as <-. eapply Qle_trans; eauto.
        -- intros w [Hw|Hw]; [injection Hw as ->; exact Hacc | auto].
      * apply Qle_bool_false_le in E. specialize (Hacc a eq_refl).
        split; [destruct Hin as [Hin|Hin]; [injection Hin as ->; auto | auto]|].
        split; [intros a' Ha'; injection Ha' as <-; exact Hacc|].
        intros w [Hw|Hw]; [injection Hw as ->; eapply Qle_trans; eauto | auto].
    + specialize (Hacc y eq_refl).
      split; [destruct Hin as [Hin|Hin]; [injection Hin as ->; auto | auto]|].
      split; [discriminate|]. intros w [Hw|Hw]; [injection Hw as ->; exact Hacc | auto].
    + split; [destruct Hin; auto|]. split; [exact Hacc|].
      intros w [Hw|Hw]; [discriminate | auto].
Qed.

Lemma fold_max_some (xs : list (option Q)) : forall acc v,
  fold_left max_step xs acc = Some v ->
  (acc = Some v \/ In (Some v) xs) /\
  (forall a, acc = Some a -> (a <= v)%Q) /\ (forall w, In (Some w) xs -> (w <= v)%Q).
Proof.
  induction xs as [|x xs IH]; intros acc v Hv; simpl in *.
  - subst. split; [auto|]. split; [intros a Ha; injection Ha as ->; apply Qle_refl | tauto].
  - destruct (IH _ _ Hv) as [Hin [Hacc Hall]].
    destruct x as [y|]; [destruct acc as [a|]|]; simpl in *.
    + destruct (Qle_bool a y) eqn:E.
      * apply Qle_bool_iff in E. specialize (Hacc y eq_refl).
        split; [destruct Hin as [Hin|Hin]; [injection Hin as ->; auto | auto]|]. split.
        -- intros a' Ha'. injection Ha' as <-. eapply Qle_trans; eauto.
        -- intros w [Hw|Hw]; [injection Hw as ->; exact Hacc | auto].
      * apply Qle_bool_false_le in E. specialize (Hacc a eq_refl).
        split; [destruct Hin as [Hin|Hin]; [injection Hin as ->; auto | auto]|].
        split; [intros a' Ha'; injection Ha' as <-; exact Hacc|].
        intros w [Hw|Hw]; [injection Hw as ->; eapply Qle_trans; eauto | auto].
    + specialize (Hacc y eq_refl).
      split; [destruct Hin as [Hin|Hin]; [injection Hin as ->; auto | auto]|].
      split; [discriminate|]. intros w [Hw|Hw]; [injection Hw as ->; exact Hacc | auto].
    + split; [destruct Hin; auto|]. split; [exact Hacc|].
      intros w [Hw|Hw]; [discriminate | auto].
Qed.

Lemma metric_statistics_in (ds : list Row) (m : string) (w : Q) :
  In (Some w) (map statistic (List.filter (holds [col_eq String.eqb metric_name m]) ds)) <->
  statistic_of ds m w.
Proof.
  unfold statistic_of. rewrite in_map_iff. split.
  - intros [r [Hs Hin]]. apply filter_In in Hin as [Hin Hh].
    exists r. split; [exact Hin|]. split; [|exact Hs].
    unfold holds in Hh. simpl in Hh. rewrite andb_true_r in Hh.
    apply (pred_true_eq String.eqb metric_name m r String.eqb_eq). exact Hh.
  - intros [r [Hin [Hm Hs]]]. exists r. split; [exact Hs|]. apply filter_In. split; [exact Hin|].
    unfold holds. simpl. rewrite andb_true_r.
    apply (pred_true_eq String.eqb metric_name m r String.eqb_eq). exact Hm.
Qed.

(** C4 (corrected): [metric_range] computes, for every metric, the min and
    max of its non-null STATISTIC over the whole dataset ([(null, null)] when
    there is none) and consults no override; the colour-bar limits of the map
    are the curated (-1, 1) for BIAS FRACTION, [metric_range] for SAMPLE SIZE,
    and [(null, null)] for every other metric. *)
Theorem colorbar_limits_and_metric_range (ds : list Row) :
  colorbar_limits ds "BIAS FRACTION" = Ok (Some (-1)%Q, Some 1%Q) /\
  colorbar_limits ds "SAMPLE SIZE" = metric_range ds "SAMPLE SIZE" /\
  (forall m, m <> "BIAS FRACTION"%string -> m <> "SAMPLE SIZE"%string ->
     colorbar_limits ds m = Ok (None, None)) /\
  (forall m, exists lo hi, metric_range ds m = Ok (lo, hi) /\
     (lo = None <-> forall v, ~ statistic_of ds m v) /\
     (hi = None <-> forall v, ~ statistic_of ds m v) /\
     (forall v, lo = Some v -> statistic_of ds m v /\ forall w, statistic_of ds m w -> (v <= w)%Q) /\
     (forall v, hi = Some v -> statistic_of ds m v /\ forall w, statistic_of ds m w -> (w <= v)%Q)).
Proof.
  assert (Hmr : forall m, metric_range ds m =
    Ok (col_min (map statistic (List.filter (holds [col_eq String.eqb metric_name m]) ds)),
        col_max (map statistic (List.filter (holds [col_eq String.eqb metric_name m]) ds))))
    by reflexivity.
  unfold colorbar_limits. rewrite (Hmr "SAMPLE SIZE"%string). simpl bind.
  split; [reflexivity|]. split; [reflexivity|]. split.
  - intros m H1 H2. simpl.
    apply String.eqb_neq in H1, H2. rewrite H1, H2. reflexivity.
  - intro m. rewrite Hmr. do 2 eexists. split; [reflexivity|].
    set (xs := map statistic _).
    assert (Hxs : forall w, In (Some w) xs <-> statistic_of ds m w) by apply metric_statistics_in.
    split; [|split; [|split]].
    + unfold col_min. rewrite (fold_step_none _ min_step_none).
      split; [intros [_ H] v Hv; apply (H v), Hxs, Hv | intro H; split; [reflexivity|]].
      intros v Hv. apply (H v), Hxs, Hv.
    + unfold col_max. rewrite (fold_step_none _ max_step_none).
      split; [intros [_ H] v Hv; apply (H v), Hxs, Hv | intro H; split; [reflexivity|]].
      intros v Hv. apply (H v), Hxs, Hv.
    + intros v Hv. destruct (fold_min_some xs None v Hv) as [[H|H] [_ Hall]]; [discriminate|].
      split; [apply Hxs, H|]. intros w Hw. apply Hall, Hxs, Hw.
    + intros v Hv. destruct (fold_max_some xs None v Hv) as [[H|H] [_ Hall]]; [discriminate|].
      split; [apply Hxs, H|]. intros w Hw. apply Hall, Hxs, Hw.
Qed.

(** C4 as stated fails, for the colour-bar limits (no computed range for a
    metric other than SAMPLE SIZE) and for [metric_range] (no override). *)
Lemma range_query_spec_fails :
  ~ (forall ds m, colorbar_limits ds m = Ok (range_query_spec ds m)) /\
  ~ (forall ds m, metric_range ds m = Ok (range_query_spec ds m)).
Proof.
  split; intro H.
  - specialize (H [mk_row "A" "1" "POINT (1 1)" "MEAN ERROR" 0 2] "MEAN ERROR"%string).
    vm_compute in H. discriminate.
  - specialize (H [row_A] "BIAS FRACTION"%string). vm_compute in H. discriminate.
Qed.

(** * Further properties of the code *)

(** ** The lead-time derivation *)

Lemma skip_nondigits_none (s : ustring) : no_digits s = true -> skip_nondigits s = [].
Proof.
  induction s as [|c s IH]; simpl; [reflexivity|].
  intro H. apply andb_prop in H as [Hc Hs]. destruct (is_digit c); [discriminate|]. auto.
Qed.

(** A duration text with no decimal digit at all gives lead time 0, like an
    absent or sentinel one. *)
Theorem lead_time_no_digits_zero (s : ustring) :
  no_digits s = true -> lead_time (Some s) = Ok (Some 0).
Proof.
  intro H. unfold lead_time, read_text_cell.
  destruct (is_null_text s); [reflexivity|].
  unfold str_extract_digits. rewrite skip_nondigits_none by exact H. reflexivity.
Qed.

Lemma lead_time_no_digits_zero_witness :
  no_digits (ascii_text "PTH") = true /\ lead_time (Some (ascii_text "PTH")) = Ok (Some 0).
Proof.
  split; [vm_compute; reflexivity|].
  apply lead_time_no_digits_zero. vm_compute. reflexivity.
Defined.

(** ** Projection pushdown *)




(** ** Geometry errors *)

Lemma nodupb_true_NoDup (xs : list (option string)) : nodupb ostr_eqb xs = true -> NoDup xs.
Proof.
  induction xs as [|x xs IH]; simpl; intro H; [constructor|].
  apply andb_prop in H as [Hx Hs]. constructor; [|auto].
  intro Hin. apply negb_true_iff in Hx. rewrite <- not_true_iff_false in Hx. apply Hx.
  apply existsb_exists. exists x. split; [exact Hin|]. apply ostr_eqb_eq. reflexivity.
Qed.

Lemma NoDup_map_fst_functional {A B} (l : list (A * B)) (a : A) (b1 b2 : B) :
  NoDup (map fst l) -> In (a, b1) l -> In (a, b2) l -> b1 = b2.
Proof.
  induction l as [|[a' b'] l IH]; simpl; [tauto|].
  intros ND H1 H2. inversion ND as [|? ? Hn ND']; subst.
  destruct H1 as [E1|H1], H2 as [E2|H2].
  - congruence.
  - injection E1 as -> ->. exfalso. apply Hn. apply (in_map fst) in H2. exact H2.
  - injection E2 as -> ->. exfalso. apply Hn. apply (in_map fst) in H1. exact H1.
  - auto.
Qed.

Lemma NoDup_map_fst_of_functional {A B} (l : list (A * B)) :
  NoDup l -> (forall x y, In x l -> In y l -> fst x = fst y -> x = y) -> NoDup (map fst l).
Proof.
  induction l as [|x l IH]; simpl; intros ND F; [constructor|].
  inversion ND as [|? ? Hn ND']; subst. constructor.
  - intro Hin. apply in_map_iff in Hin as [y [Hy Hin]].
    assert (x = y) as <- by (apply F; auto). contradiction.
  - apply IH; [exact ND'|]. intros; apply F; auto.
Qed.

(** A non-empty frame with a unique index cannot take a column whose index
    repeats a label: pandas raises. *)
Lemma set_geometry_dup_index {A G} (fill : A) (df : list (option string * A))
    (s : list (option string * option G)) :
  df <> [] -> NoDup (map fst df) -> ~ NoDup (map fst s) ->
  set_geometry ostr_eqb fill df s = Err ReindexError.
Proof.
  intros Hne ND NDs. destruct df as [|x df']; [contradiction|]. unfold set_geometry.
  destruct (list_eqb ostr_eqb (map fst (x :: df')) (map fst s)) eqn:E.
  - apply list_eqb_eq in E. rewrite <- E in NDs. contradiction.
  - destruct (nodupb ostr_eqb (map fst s)) eqn:N; [|reflexivity].
    apply nodupb_true_NoDup in N. contradiction.
Qed.

Lemma from_wkt_ok {Geom} (parse_wkt : string -> option Geom) pairs :
  (forall k t, In (k, Some t) pairs -> parse_wkt t <> None) ->
  exists geo, from_wkt parse_wkt pairs = Ok geo.
Proof.
  unfold from_wkt. induction pairs as [|[k w] pairs IH]; simpl; intro H.
  - exists []. reflexivity.
  - destruct IH as [geo Hg]; [intros k' t Hin; apply (H k'); right; exact Hin|].
    rewrite Hg. destruct w as [t|]; simpl.
    + destruct (parse_wkt t) as [g|] eqn:Hp; simpl.
      * eexists. reflexivity.
      * exfalso. exact (H k t (or_introl eq_refl) Hp).
    + eexists. reflexivity.
Qed.

(** [geometry] on a dataset whose WKT texts all parse, where one feature
    name comes with two different WKT texts, holds a repeated label. *)
Lemma geometry_dup_label {Geom} (parse_wkt : string -> option Geom) (ds : list Row)
    (g : Result (list (option string * option Geom))) (r1 r2 : Row) :
  (forall r t, In r ds -> left_feature_wkt r = Some t -> parse_wkt t <> None) ->
  In r1 ds -> In r2 ds -> left_feature_name r1 = left_feature_name r2 ->
  left_feature_wkt r1 <> left_feature_wkt r2 ->
  geometry_rel parse_wkt ds g ->
  exists geo, g = Ok geo /\ ~ NoDup (map fst geo).
Proof.
  intros Hp H1 H2 En Ew [pairs [[NDp Hin] ->]].
  destruct (from_wkt_ok parse_wkt pairs) as [geo Hg].
  { intros k t Ht. apply Hin, in_map_iff in Ht as [r [Er Hr]].
    unfold name_wkt in Er. injection Er as _ Ew'. exact (Hp r t Hr Ew'). }
  exists geo. split; [exact Hg|]. rewrite (from_wkt_keys _ _ _ Hg). intro ND.
  apply Ew. apply (NoDup_map_fst_functional pairs (left_feature_name r1)); [exact ND| |].
  - apply Hin. apply (in_map name_wkt) in H1. exact H1.
  - apply Hin. apply (in_map name_wkt) in H2. unfold name_wkt in *. rewrite En. exact H2.
Qed.

(** [load_metric_map] raises when the dataset gives one feature name two
    different WKT texts, as soon as the selection is non-empty and names each
    feature once: the geometry index repeats a label and differs from the
    selection's index. *)
Theorem load_metric_map_duplicate_wkt {Geom} (parse_wkt : string -> option Geom)
    (ds : list Row) (m : string) (lead : Z) (thr : option string) (sq : PyFloat)
    (per : option Z) (rows : list (option string * option Q)) (r1 r2 : Row)
    (out : Result (list (option string * option Q * option Geom))) :
  (forall r t, In r ds -> left_feature_wkt r = Some t -> parse_wkt t <> None) ->
  In r1 ds -> In r2 ds -> left_feature_name r1 = left_feature_name r2 ->
  left_feature_wkt r1 <> left_feature_wkt r2 ->
  query_name_statistic ds (metric_map_filters m lead thr sq per) = Ok rows ->
  rows <> [] -> NoDup (map fst rows) ->
  load_metric_map_rel parse_wkt ds m lead thr sq per out ->
  out = Err ReindexError.
Proof.
  intros Hp H1 H2 En Ew Hq Hne ND [g [Hg ->]]. rewrite Hq. simpl.
  destruct (geometry_dup_label parse_wkt ds g r1 r2 Hp H1 H2 En Ew Hg) as [geo [-> NDg]].
  simpl. apply set_geometry_dup_index; assumption.
Qed.

Lemma load_metric_map_duplicate_wkt_witness :
  exists out, load_metric_map_rel wkt_as_text [row_A; row_A_moved] "BIAS FRACTION" 0 None NaN None out /\
    out = Err ReindexError.
Proof.
  exists (Err ReindexError).
  assert (G : geometry_rel wkt_as_text [row_A; row_A_moved]
                (from_wkt wkt_as_text [(Some "A"%string, Some "POINT (1 1)"%string);
                                       (Some "A"%string, Some "POINT (1 2)"%string)])).
  { eexists. split; [|reflexivity]. split.
    - repeat constructor; simpl; intuition discriminate.
    - intro x. simpl. tauto. }
  split.
  - exists (from_wkt wkt_as_text [(Some "A"%string, Some "POINT (1 1)"%string);
                                  (Some "A"%string, Some "POINT (1 2)"%string)]).
    split; [exact G|]. vm_compute. reflexivity.
  - apply (load_metric_map_duplicate_wkt wkt_as_text [row_A; row_A_moved] "BIAS FRACTION" 0 None NaN None
             [(Some "A"%string, Some (1#2)%Q)] row_A row_A_moved).
    + intros r t _ _. discriminate.
    + simpl; tauto.
    + simpl; tauto.
    + reflexivity.
    + discriminate.
    + reflexivity.
    + discriminate.
    + repeat constructor; simpl; tauto.
    + exists (from_wkt wkt_as_text [(Some "A"%string, Some "POINT (1 1)"%string);
                                    (Some "A"%string, Some "POINT (1 2)"%string)]).
      split; [exact G|]. vm_compute. reflexivity.
Defined.

(** [feature_mapping] raises on a dataset where each feature name determines
    its description and right feature, but one feature name comes with two
    different WKT texts. *)
Theorem feature_mapping_duplicate_wkt {Geom} (parse_wkt : string -> option Geom)
    (ds : list Row) (r1 r2 : Row)
    (out : Result (list (option string * (option string * option string) * option Geom))) :
  (forall r t, In r ds -> left_feature_wkt r = Some t -> parse_wkt t <> None) ->
  (forall a b, In a ds -> In b ds -> left_feature_name a = left_feature_name b ->
     feature_tuple a = feature_tuple b) ->
  In r1 ds -> In r2 ds -> left_feature_name r1 = left_feature_name r2 ->
  left_feature_wkt r1 <> left_feature_wkt r2 ->
  feature_mapping_rel parse_wkt ds out ->
  out = Err ReindexError.
Proof.
  intros Hp Hfd H1 H2 En Ew [keys [g [[NDk Hk] [Hg ->]]]].
  destruct (geometry_dup_label parse_wkt ds g r1 r2 Hp H1 H2 En Ew Hg) as [geo [-> NDg]].
  simpl. apply set_geometry_dup_index; [| |exact NDg].
  - intro E. assert (In (feature_tuple r1) keys) as Hin by (apply Hk, in_map; exact H1).
    rewrite E in Hin. destruct Hin.
  - apply NoDup_map_fst_of_functional; [exact NDk|].
    intros x y Hx Hy Exy.
    apply Hk, in_map_iff in Hx as [a [<- Ha]]. apply Hk, in_map_iff in Hy as [b [<- Hb]].
    apply Hfd; auto.
Qed.

Lemma feature_mapping_duplicate_wkt_witness :
  exists out, feature_mapping_rel wkt_as_text [row_A; row_A_moved] out /\ out = Err ReindexError.
Proof.
  exists (Err ReindexError).
  assert (G : geometry_rel wkt_as_text [row_A; row_A_moved]
                (from_wkt wkt_as_text [(Some "A"%string, Some "POINT (1 1)"%string);
                                       (Some "A"%string, Some "POINT (1 2)"%string)])).
  { eexists. split; [|reflexivity]. split.
    - repeat constructor; simpl; intuition discriminate.
    - intro x. simpl. tauto. }
  assert (F : feature_mapping_rel wkt_as_text [row_A; row_A_moved] (Err ReindexError)).
  { exists [feature_tuple row_A].
    exists (from_wkt wkt_as_text [(Some "A"%string, Some "POINT (1 1)"%string);
                                  (Some "A"%string, Some "POINT (1 2)"%string)]).
    split; [|split; [exact G|vm_compute; reflexivity]]. split.
    - repeat constructor; simpl; tauto.
    - intro x. simpl. intuition. }
  split; [exact F|].
  apply (feature_mapping_duplicate_wkt wkt_as_text [row_A; row_A_moved] row_A row_A_moved).
  - intros r t _ _. discriminate.
  - intros a b Ha Hb _. simpl in Ha, Hb.
    destruct Ha as [<-|[<-|[]]], Hb as [<-|[<-|[]]]; reflexivity.
  - simpl; tauto.
  - simpl; tauto.
  - reflexivity.
  - discriminate.
  - exact F.
Defined.

(** ** [start_date] and [end_date] *)

Lemma zfold_min_none (xs : list (option Z)) (acc : option Z) :
  fold_left zmin_step xs acc = None <-> acc = None /\ forall x, In x xs -> x = None.
Proof.
  revert acc. induction xs as [|x xs IH]; intro acc; simpl.
  - split; [intros ->; split; [reflexivity | tauto] | tauto].
  - rewrite IH. destruct x as [u|], acc as [a|]; simpl.
    + split; intros [H _]; discriminate.
    + split; [intros [H _]; discriminate|].
      intros [_ H]. specialize (H _ (or_introl eq_refl)). discriminate.
    + split; intros [H _]; discriminate.
    + split; intros [_ H]; (split; [reflexivity|]).
      * intros x [<-|Hx]; auto.
      * intros x Hx. apply H. right. exact Hx.
Qed.

Lemma zfold_max_none (xs : list (option Z)) (acc : option Z) :
  fold_left zmax_step xs acc = None <-> acc = None /\ forall x, In x xs -> x = None.
Proof.
  revert acc. induction xs as [|x xs IH]; intro acc; simpl.
  - split; [intros ->; split; [reflexivity | tauto] | tauto].
  - rewrite IH. destruct x as [u|], acc as [a|]; simpl.
    + split; intros [H _]; discriminate.
    + split; [intros [H _]; discriminate|].
      intros [_ H]. specialize (H _ (or_introl eq_refl)). discriminate.
    + split; intros [H _]; discriminate.
    + split; intros [_ H]; (split; [reflexivity|]).
      * intros x [<-|Hx]; auto.
      * intros x Hx. apply H. right. exact Hx.
Qed.

Lemma zfold_min_some (xs : list (option Z)) (acc : option Z) (v : Z) :
  fold_left zmin_step xs acc = Some v ->
  (acc = Some v \/ In (Some v) xs) /\ (forall a, acc = Some a -> v <= a) /\
  (forall w, In (Some w) xs -> v <= w).
Proof.
  revert acc. induction xs as [|x xs IH]; intros acc H; simpl in *.
  - subst acc. split; [left; reflexivity | split; [intros a Ha; injection Ha; lia | tauto]].
  - destruct (IH _ H) as [Hat [Hb Hw]].
    destruct x as [u|], acc as [a|]; simpl in Hat, Hb.
    + specialize (Hb _ eq_refl). split; [|split].
      * destruct Hat as [E|E]; [|right; right; exact E].
        injection E as E. destruct (Z.min_spec u a) as [[_ M]|[_ M]]; rewrite M in E; subst.
        -- right; left; reflexivity.
        -- left; reflexivity.
      * intros a' Ha'. injection Ha' as <-. lia.
      * intros w [Ew|Ew]; [injection Ew as <-; lia | auto].
    + specialize (Hb _ eq_refl). split; [|split].
      * destruct Hat as [E|E]; [injection E as ->; right; left; reflexivity | right; right; exact E].
      * discriminate.
      * intros w [Ew|Ew]; [injection Ew as <-; lia | auto].
    + split; [tauto|split; [exact Hb|]]. intros w [Ew|Ew]; [discriminate | auto].
    + split; [tauto|split; [exact Hb|]]. intros w [Ew|Ew]; [discriminate | auto].
Qed.

Lemma zfold_max_some (xs : list (option Z)) (acc : option Z) (v : Z) :
  fold_left zmax_step xs acc = Some v ->
  (acc = Some v \/ In (Some v) xs) /\ (forall a, acc = Some a -> a <= v) /\
  (forall w, In (Some w) xs -> w <= v).
Proof.
  revert acc. induction xs as [|x xs IH]; intros acc H; simpl in *.
  - subst acc. split; [left; reflexivity | split; [intros a Ha; injection Ha; lia | tauto]].
  - destruct (IH _ H) as [Hat [Hb Hw]].
    destruct x as [u|], acc as [a|]; simpl in Hat, Hb.
    + specialize (Hb _ eq_refl). split; [|split].
      * destruct Hat as [E|E]; [|right; right; exact E].
        injection E as E. destruct (Z.max_spec u a) as [[_ M]|[_ M]]; rewrite M in E; subst.
        -- left; reflexivity.
        -- right; left; reflexivity.
      * intros a' Ha'. injection Ha' as <-. lia.
      * intros w [Ew|Ew]; [injection Ew as <-; lia | auto].
    + specialize (Hb _ eq_refl). split; [|split].
      * destruct Hat as [E|E]; [injection E as ->; right; left; reflexivity | right; right; exact E].
      * discriminate.
      * intros w [Ew|Ew]; [injection Ew as <-; lia | auto].
    + split; [tauto|split; [exact Hb|]]. intros w [Ew|Ew]; [discriminate | auto].
    + split; [tauto|split; [exact Hb|]]. intros w [Ew|Ew]; [discriminate | auto].
Qed.

(** [start_date] is null exactly when every EARLIEST VALID TIME EXCLUSIVE is
    null; otherwise it is the smallest non-null one, taken by some row. *)
Theorem start_date_min (ds : list Row) :
  (start_date ds = None <-> forall r, In r ds -> earliest_valid_time_exclusive r = None) /\
  forall v, start_date ds = Some v ->
    (exists r, In r ds /\ earliest_valid_time_exclusive r = Some v) /\
    forall r w, In r ds -> earliest_valid_time_exclusive r = Some w -> v <= w.
Proof.
  unfold start_date. split.
  - rewrite zfold_min_none. split.
    + intros [_ H] r Hr. apply H, in_map. exact Hr.
    + intro H. split; [reflexivity|]. intros x Hx. apply in_map_iff in Hx as [r [<- Hr]]. auto.
  - intros v H. apply zfold_min_some in H as [[E|Hin] [_ Hw]]; [discriminate|]. split.
    + apply in_map_iff in Hin as [r [E Hr]]. exists r. auto.
    + intros r w Hr Ew. apply Hw. rewrite <- Ew. apply in_map. exact Hr.
Qed.

(** [end_date] is null exactly when every LATEST VALID TIME INCLUSIVE is
    null; otherwise it is the largest non-null one, taken by some row. *)
Theorem end_date_max (ds : list Row) :
  (end_date ds = None <-> forall r, In r ds -> latest_valid_time_inclusive r = None) /\
  forall v, end_date ds = Some v ->
    (exists r, In r ds /\ latest_valid_time_inclusive r = Some v) /\
    forall r w, In r ds -> latest_valid_time_inclusive r = Some w -> w <= v.
Proof.
  unfold end_date. split.
  - rewrite zfold_max_none. split.
    + intros [_ H] r Hr. apply H, in_map. exact Hr.
    + intro H. split; [reflexivity|]. intros x Hx. apply in_map_iff in Hx as [r [<- Hr]]. auto.
  - intros v H. apply zfold_max_some in H as [[E|Hin] [_ Hw]]; [discriminate|]. split.
    + apply in_map_iff in Hin as [r [E Hr]]. exists r. auto.
    + intros r w Hr Ew. apply Hw. rewrite <- Ew. apply in_map. exact Hr.
Qed.

(** ** The lead-time slider and the linked feature selectors *)

Section IndexOf.
Context {A : Type} (eqb : A -> A -> bool) (eqb_eq : forall a b, eqb a b = true <-> a = b).

Lemma index_of_nth_error (x : A) (l : list A) (i : nat) :
  index_of eqb x l = Some i -> nth_error l i = Some x.
Proof.
  revert i. induction l as [|y l IH]; intros i H; simpl in H; [discriminate|].
  destruct (eqb x y) eqn:E.
  - injection H as <-. apply eqb_eq in E. subst. reflexivity.
  - destruct (index_of eqb x l) as [j|]; simpl in H; [|discriminate].
    injection H as <-. simpl. auto.
Qed.

Lemma index_of_In (x : A) (l : list A) : In x l -> exists i, index_of eqb x l = Some i.
Proof.
  induction l as [|y l IH]; simpl; [tauto|]. intros Hin.
  destruct (eqb x y) eqn:E; [eexists; reflexivity|].
  destruct Hin as [->|Hin].
  - assert (eqb x x = true) by (apply eqb_eq; reflexivity). congruence.
  - destruct (IH Hin) as [i ->]. eexists; reflexivity.
Qed.

Lemma index_of_NoDup (x : A) (l : list A) (i : nat) :
  NoDup l -> nth_error l i = Some x -> index_of eqb x l = Some i.
Proof.
  intros ND Hn. assert (Hin : In x l) by (eapply nth_error_In; exact Hn).
  destruct (index_of_In x l Hin) as [j Hj]. rewrite Hj. f_equal.
  apply index_of_nth_error in Hj. apply (proj1 (NoDup_nth_error l) ND).
  - apply nth_error_Some. congruence.
  - congruence.
Qed.
End IndexOf.

(** On distinct options, a forward click from any option but the last moves
    to a different option, and a backward click from there comes back. *)
Theorem update_lead_time_value_forward_backward (options : list Z) (value : Z) (idx : nat) :
  NoDup options -> index_of Z.eqb value options = Some idx ->
  (idx < length options - 1)%nat ->
  exists v, update_lead_time_value options value true "forward" = Some v /\ v <> value /\
    update_lead_time_value options v true "backward" = Some value.
Proof.
  intros ND Hidx Hlt. unfold update_lead_time_value. simpl negb. cbv iota. rewrite Hidx.
  replace (String.eqb "forward" "forward") with true by reflexivity.
  destruct (Nat.eqb idx (length options - 1)) eqn:E; [apply Nat.eqb_eq in E; lia|].
  pose proof (index_of_nth_error Z.eqb Z.eqb_eq _ _ _ Hidx) as Hv.
  assert (Hn : nth_error options (idx + 1) = Some (nth (idx + 1) options value)).
  { apply nth_error_nth'. lia. }
  exists (nth (idx + 1) options value). split; [reflexivity|]. split.
  - intro Eq. rewrite Eq in Hn. rewrite <- Hv in Hn.
    apply (proj1 (NoDup_nth_error options) ND) in Hn; [lia|lia].
  - rewrite (index_of_NoDup Z.eqb Z.eqb_eq _ _ _ ND Hn).
    replace (String.eqb "backward" "forward") with false by reflexivity.
    replace (String.eqb "backward" "backward") with true by reflexivity.
    replace (Nat.eqb (idx + 1) 0) with false by (symmetry; apply Nat.eqb_neq; lia).
    replace (idx + 1 - 1)%nat with idx by lia. f_equal.
    apply nth_error_nth. exact Hv.
Qed.

Lemma update_lead_time_value_forward_backward_witness :
  exists v, update_lead_time_value [0; 24; 48] 24 true "forward" = Some v /\ v <> 24 /\
    update_lead_time_value [0; 24; 48] v true "backward" = Some 24.
Proof.
  apply (update_lead_time_value_forward_backward [0; 24; 48] 24 1).
  - repeat constructor; simpl; lia.
  - reflexivity.
  - simpl; lia.
Defined.

Lemma left_options_entry_key {G} (fm : list (option string * (option string * option string) * option G)) :
  left_options fm = map fst (map entry_key fm).
Proof. induction fm as [|[[k a] v] fm IH]; simpl; congruence. Qed.

Lemma feature_mapping_keys {Geom} (parse_wkt : string -> option Geom) (ds : list Row) fm :
  feature_mapping_rel parse_wkt ds (Ok fm) ->
  exists keys, unique_rel (map feature_tuple ds) keys /\ map entry_key fm = keys.
Proof.
  intros [keys [g [Hk [[pairs [[_ Ip] Hg]] Hout]]]]. exists keys. split; [exact Hk|].
  destruct keys as [|t keys'].
  - assert (ds = []) as ->.
    { destruct ds as [|r ds']; [reflexivity|]. exfalso.
      apply (proj2 Hk (feature_tuple r)). left. reflexivity. }
    assert (pairs = []) as ->.
    { destruct pairs as [|p pairs']; [reflexivity|]. exfalso.
      apply (proj1 (Ip p)). left. reflexivity. }
    subst g. simpl in Hout. injection Hout as ->. reflexivity.
  - destruct g as [geo|e]; simpl in Hout; [|discriminate].
    apply (set_geometry_keeps_frame ostr_eqb (None, None) (t :: keys') geo); [discriminate|].
    symmetry. exact Hout.
Qed.



(** On a true value, [update_left] and [update_right] of explorer/cli.py are
    a round trip when the left options are distinct and the option and
    description lists are as long as each other, with no null description:
    choosing a right feature sets the left selector, whose own watcher then
    sets the right selector back to the same feature (a false left value
    makes it return) and shows the same description. *)
Theorem update_linked_round_trip (lefts rights descs : list (option string)) (r : option string) :
  NoDup lefts -> length lefts = length rights -> length descs = length rights ->
  (forall d, In d descs -> d <> None) ->
  In r rights -> truthy r = true ->
  exists l d, update_linked rights lefts descs r = SetTo l d /\ In l lefts /\
    (truthy l = false /\ update_linked lefts rights descs l = Unchanged \/
     update_linked lefts rights descs l = SetTo r d).
Proof.
  intros ND Hlen Hd Hnn Hin Hr. unfold update_linked. rewrite Hr. simpl negb. cbv iota.
  destruct (index_of_In ostr_eqb ostr_eqb_eq r rights Hin) as [i Hi]. rewrite Hi.
  pose proof (index_of_nth_error ostr_eqb ostr_eqb_eq _ _ _ Hi) as Hri.
  assert (Hlt : (i < length rights)%nat) by (apply nth_error_Some; congruence).
  destruct (nth_error lefts i) as [l|] eqn:Hl.
  2:{ apply nth_error_None in Hl. lia. }
  destruct (nth_error descs i) as [[dd|]|] eqn:Hdi.
  3:{ apply nth_error_None in Hdi. lia. }
  2:{ exfalso. apply (Hnn None); [eapply nth_error_In; exact Hdi|reflexivity]. }
  exists l, ("LEFT FEATURE DESCRIPTION<br>" ++ dd)%string.
  split; [reflexivity|]. split; [eapply nth_error_In; exact Hl|].
  destruct (truthy l) eqn:Tl; [right|left; split; reflexivity].
  simpl negb. cbv iota.
  rewrite (index_of_NoDup ostr_eqb ostr_eqb_eq _ _ _ ND Hl), Hri, Hdi. reflexivity.
Qed.

Lemma update_linked_round_trip_witness :
  update_linked [Some "1"%string; Some "2"%string] [Some "A"%string; Some "B"%string]
    [Some "Site A"%string; Some "Site B"%string] (Some "2"%string) =
    SetTo (Some "B"%string) "LEFT FEATURE DESCRIPTION<br>Site B" /\
  update_linked [Some "A"%string; Some "B"%string] [Some "1"%string; Some "2"%string]
    [Some "Site A"%string; Some "Site B"%string] (Some "B"%string) =
    SetTo (Some "2"%string) "LEFT FEATURE DESCRIPTION<br>Site B".
Proof.
  destruct (update_linked_round_trip [Some "A"%string; Some "B"%string]
              [Some "1"%string; Some "2"%string] [Some "Site A"%string; Some "Site B"%string]
              (Some "2"%string)) as [l [d [H1 [Hl H2]]]].
  - repeat constructor; simpl; intuition discriminate.
  - reflexivity.
  - reflexivity.
  - intros d [<-|[<-|[]]]; discriminate.
  - simpl; tauto.
  - reflexivity.
  - vm_compute in H1. injection H1 as <- <-. destruct H2 as [[T _]|H2]; [discriminate T|].
    split; [reflexivity|exact H2].
Defined.

Lemma nth_error_entry {G} (fm : list (option string * (option string * option string) * option G))
    (i : nat) k a rn g :
  nth_error fm i = Some (k, (a, rn), g) ->
  nth_error (left_options fm) i = Some k /\ nth_error (right_options fm) i = Some rn.
Proof.
  intro H. unfold left_options, right_options. rewrite !nth_error_map, H. split; reflexivity.
Qed.

(** In [SiteSelector.update_selection], when each feature name determines its
    description and right feature and every geometry of [feature_mapping] is
    a point, choosing a right feature selects the left feature at the same
    position and moves the marker to its point; choosing that left feature
    selects the same right feature and the same point back. *)
Theorem update_selection_round_trip {Geom} (parse_wkt : string -> option Geom)
    (xy : Geom -> option (Q * Q)) (ds : list Row)
    (fm : list (option string * (option string * option string) * option Geom))
    (r : option string) :
  feature_mapping_rel parse_wkt ds (Ok fm) ->
  (forall a b, In a ds -> In b ds -> left_feature_name a = left_feature_name b ->
     feature_tuple a = feature_tuple b) ->
  (forall e, In e fm -> exists g c, snd e = Some g /\ xy g = Some c) ->
  In r (right_options fm) ->
  exists l c, update_selection_link xy fm false RightValue r = Selected l c /\
    (exists desc g, In (l, (desc, r), Some g) fm /\ xy g = Some c) /\
    update_selection_link xy fm false LeftValue l = Selected r c.
Proof.
  intros Hfm Hfd Hpt Hin.
  assert (ND : NoDup (left_options fm)).
  { rewrite left_options_entry_key.
    destruct (feature_mapping_keys parse_wkt ds fm Hfm) as [keys [[NDk Hk] ->]].
    apply NoDup_map_fst_of_functional; [exact NDk|].
    intros x y Hx Hy Exy.
    apply Hk, in_map_iff in Hx as [a [<- Ha]]. apply Hk, in_map_iff in Hy as [b [<- Hb]].
    apply Hfd; auto. }
  destruct (index_of_In ostr_eqb ostr_eqb_eq r _ Hin) as [i Hi].
  pose proof (index_of_nth_error ostr_eqb ostr_eqb_eq _ _ _ Hi) as Hri.
  assert (Hlt : (i < length fm)%nat).
  { replace (length fm) with (length (right_options fm)) by apply length_map.
    apply nth_error_Some. congruence. }
  destruct (nth_error fm i) as [[[k [a rn]] og]|] eqn:He.
  2:{ apply nth_error_None in He. lia. }
  destruct (nth_error_entry fm i k a rn og He) as [Hk Hrn].
  rewrite Hri in Hrn. injection Hrn as <-.
  destruct (Hpt _ (nth_error_In _ _ He)) as [g [c [Hg Hc]]]. simpl in Hg. subst og.
  exists k, c. unfold update_selection_link. cbv iota beta.
  rewrite Hi, He, Hc, Hk. split; [reflexivity|]. split.
  - exists a, g. split; [eapply nth_error_In; exact He|exact Hc].
  - rewrite (index_of_NoDup ostr_eqb ostr_eqb_eq _ _ _ ND Hk), He, Hc.
    rewrite (proj2 (nth_error_entry fm i k a r (Some g) He)). reflexivity.
Qed.

Lemma update_selection_round_trip_witness :
  update_selection_link point_xy
    [(Some "A"%string, (Some "Site"%string, Some "1"%string), Some "POINT (1 1)"%string);
     (Some "B"%string, (Some "Site"%string, Some "2"%string), Some "POINT (2 2)"%string)]
    false RightValue (Some "2"%string) = Selected (Some "B"%string) (2, 2)%Q /\
  update_selection_link point_xy
    [(Some "A"%string, (Some "Site"%string, Some "1"%string), Some "POINT (1 1)"%string);
     (Some "B"%string, (Some "Site"%string, Some "2"%string), Some "POINT (2 2)"%string)]
    false LeftValue (Some "B"%string) = Selected (Some "2"%string) (2, 2)%Q.
Proof.
  assert (F : feature_mapping_rel wkt_as_text [row_A; row_B]
                (Ok [(Some "A"%string, (Some "Site"%string, Some "1"%string), Some "POINT (1 1)"%string);
                     (Some "B"%string, (Some "Site"%string, Some "2"%string), Some "POINT (2 2)"%string)])).
  { exists [feature_tuple row_A; feature_tuple row_B].
    exists (from_wkt wkt_as_text [name_wkt row_A; name_wkt row_B]). split; [|split].
    - split; [repeat constructor; simpl; intuition discriminate | intro x; simpl; tauto].
    - eexists. split; [|reflexivity]. split.
      + repeat constructor; simpl; intuition discriminate.
      + intro x. simpl. tauto.
    - vm_compute. reflexivity. }
  destruct (update_selection_round_trip wkt_as_text point_xy [row_A; row_B] _ (Some "2"%string) F)
    as [l [c [H1 [_ H2]]]].
  - intros a b Ha Hb E. simpl in Ha, Hb.
    destruct Ha as [<-|[<-|[]]], Hb as [<-|[<-|[]]]; try reflexivity; discriminate.
  - intros e [<-|[<-|[]]]; eexists; eexists; split; reflexivity.
  - simpl; tauto.
  - vm_compute in H1. injection H1 as <- <-. split; [reflexivity|exact H2].
Defined.
